(** * Threshold-based stress scoring engine ([benchmark_system.py])

    A shallow embedding of the piecewise scoring functions
    [inverted_piecewise], [direct_piecewise] and [compute_stress_score],
    together with the parts of the Python runtime they rely on
    (true division and its [ZeroDivisionError], the two-argument
    [max]/[min], [sum] over a generator, dictionary lookup, and the
    built-in [round]).

    The functions are translated once, over an abstract number type
    ([PyFloat]); they are then read in two ways:
    - [Exact]: numbers are rationals, arithmetic is exact;
    - [Binary64]: numbers are IEEE 754 double precision values
      ([spec_float] at precision 53), with NaN and the infinities.

    The harness [benchmark] is embedded as far as it computes: its
    scoring loops over an arbitrary clock, and the minimum, maximum and
    percentiles it takes from the recorded latencies. *)

From Stdlib Require Import ZArith QArith Qround Qabs Lqa Lia List String Bool.
From Stdlib Require Import SpecFloat.
Import ListNotations.

Set Implicit Arguments.

(** ** Python exceptions and the error monad *)

Inductive exn : Set :=
| ZeroDivisionError
| KeyError
| ValueError
| OverflowError.

Inductive result (A : Type) : Type :=
| Ok (a : A)
| Raise (e : exn).

Arguments Ok {A} a.
Arguments Raise {A} e.

Definition bind {A B : Type} (c : result A) (k : A -> result B) : result B :=
  match c with
  | Ok a => k a
  | Raise e => Raise e
  end.

Declare Scope py_scope.
Delimit Scope py_scope with py.

Notation "x <- c ;; k" := (bind c (fun x => k))
  (at level 61, c at next level, right associativity) : py_scope.

(** ** The built-in [round] on a number with an exact rational value

    CPython rounds a float to an integer in two steps: the C function
    [round] (halves go away from zero), then, when the argument was at
    distance exactly 0.5 from that result, [2.0 * round(x / 2.0)]. *)

Definition c_round (x : Q) : Z :=
  if Qle_bool 0 x then Qfloor (x + (1 # 2)) else (- Qfloor (- x + (1 # 2)))%Z.

Definition py_round (x : Q) : Z :=
  let rounded := c_round x in
  if Qeq_bool (Qabs (x - inject_Z rounded)) (1 # 2)
  then (2 * c_round (x / 2))%Z
  else rounded.

(** ** The number interface *)

Class PyFloat : Type := {
  num : Type;
  lit : Q -> num;                 (* a numeric literal *)
  add : num -> num -> num;
  sub : num -> num -> num;
  mul : num -> num -> num;
  quot : num -> num -> num;       (* [x / y] when [y] is not zero *)
  is_zero : num -> bool;          (* [y == 0] *)
  ltb : num -> num -> bool;       (* [x < y] *)
  leb : num -> num -> bool;       (* [x <= y] *)
  to_int : num -> result Z        (* [int(round(x))] *)
}.

Section Engine.

Context {F : PyFloat}.

Open Scope py_scope.

(** [x / y] raises [ZeroDivisionError] on a zero divisor. *)
Definition div (x y : num) : result num :=
  if is_zero y then Raise ZeroDivisionError else Ok (quot x y).

Notation "x + y" := (add x y) : py_scope.
Notation "x - y" := (sub x y) : py_scope.
Notation "x * y" := (mul x y) : py_scope.
Notation "x / y" := (div x y) : py_scope.
Notation "x <? y" := (ltb x y) : py_scope.
Notation "x <=? y" := (leb x y) : py_scope.
Notation "x >? y" := (ltb y x) : py_scope.
Notation "x >=? y" := (leb y x) : py_scope.

(** [max(a, b)] and [min(a, b)]: the first argument is kept unless the
    second compares strictly greater (resp. smaller). *)
Definition py_max (a b : num) : num := if b >? a then b else a.
Definition py_min (a b : num) : num := if b <? a then b else a.

(** *** Thresholds and weights (module constants) *)

Definition RMSSD_RELAXED := lit 60.
Definition RMSSD_NORMAL := lit 40.
Definition RMSSD_ELEVATED := lit 20.
Definition SDNN_RELAXED := lit 80.
Definition SDNN_NORMAL := lit 50.
Definition SDNN_ELEVATED := lit 30.
Definition PNN50_RELAXED := lit 25.
Definition PNN50_NORMAL := lit 10.
Definition PNN50_ELEVATED := lit 3.
Definition SI_RELAXED := lit 100.
Definition SI_NORMAL := lit 250.
Definition SI_ELEVATED := lit 500.
Definition LFHF_RELAXED := lit (5 # 10).
Definition LFHF_NORMAL := lit 2.
Definition LFHF_ELEVATED := lit 4.
Definition HF_RELAXED := lit 400.
Definition HF_NORMAL := lit 150.
Definition HF_ELEVATED := lit 40.
Definition HR_RELAXED := lit 65.
Definition HR_NORMAL := lit 80.
Definition HR_ELEVATED := lit 95.

(** A dictionary with string keys, in insertion order. *)
Definition dict : Type := list (string * num).

Fixpoint getitem (d : dict) (k : string) : result num :=
  match d with
  | [] => Raise KeyError
  | (k', v) :: d' => if String.eqb k k' then Ok v else getitem d' k
  end.

Definition keys (d : dict) : list string := map fst d.

Definition WEIGHTS : dict :=
  [ ("rmssd", lit (25 # 100)); ("sdnn", lit (15 # 100));
    ("pnn50", lit (10 # 100)); ("si", lit (15 # 100));
    ("lfhf", lit (15 # 100)); ("hf", lit (10 # 100));
    ("hr", lit (10 # 100)) ]%string.

(** *** The interpolation functions *)

Definition inverted_piecewise (value relaxed normal elevated : num)
  : result num :=
  if value >=? relaxed then
    q <- (value - relaxed) / relaxed ;;
    Ok (py_max (lit 0) (lit 12 * (lit 1 - q)))
  else if value >=? normal then
    q <- (relaxed - value) / (relaxed - normal) ;;
    Ok (lit 13 + q * lit 24)
  else if value >=? elevated then
    q <- (normal - value) / (normal - elevated) ;;
    Ok (lit 38 + q * lit 24)
  else
    t <- (if elevated >? lit 0
          then q <- (elevated - value) / elevated ;; Ok (py_min (lit 1) q)
          else Ok (lit 1)) ;;
    Ok (lit 63 + t * lit 37).

Definition direct_piecewise (value relaxed normal elevated : num)
  : result num :=
  if value <=? relaxed then
    if relaxed >? lit 0
    then q <- value / relaxed ;; Ok (q * lit 12)
    else Ok (lit 0)
  else if value <=? normal then
    q <- (value - relaxed) / (normal - relaxed) ;;
    Ok (lit 13 + q * lit 24)
  else if value <=? elevated then
    q <- (value - normal) / (elevated - normal) ;;
    Ok (lit 38 + q * lit 24)
  else
    overshoot <- (if elevated >? lit 0
                  then q <- (value - elevated) / elevated ;;
                       Ok (py_min (lit 1) q)
                  else Ok (lit 1)) ;;
    Ok (lit 63 + overshoot * lit 37).

(** *** The composite score *)

(** [sum(scores[k] * weights[k] for k in weights)], continued from the
    running total [acc]: the items are added one by one, from left to
    right (CPython from 3.12 on compensates the rounding errors of a sum
    of floats, which can move the binary64 total by one unit in the last
    place; in exact arithmetic the two agree). *)
Fixpoint weighted_sum (scores weights : dict) (ks : list string) (acc : num)
  : result num :=
  match ks with
  | [] => Ok acc
  | k :: ks' =>
      s <- getitem scores k ;;
      w <- getitem weights k ;;
      weighted_sum scores weights ks' (acc + s * w)
  end.

(** The dictionary [scores] of [compute_stress_score]. *)
Definition sub_scores (rmssd sdnn pnn50 si lfhf hf hr : num) : result dict :=
  s_rmssd <- inverted_piecewise rmssd RMSSD_RELAXED RMSSD_NORMAL RMSSD_ELEVATED ;;
  s_sdnn <- inverted_piecewise sdnn SDNN_RELAXED SDNN_NORMAL SDNN_ELEVATED ;;
  s_pnn50 <- inverted_piecewise pnn50 PNN50_RELAXED PNN50_NORMAL PNN50_ELEVATED ;;
  s_si <- direct_piecewise si SI_RELAXED SI_NORMAL SI_ELEVATED ;;
  s_lfhf <- direct_piecewise lfhf LFHF_RELAXED LFHF_NORMAL LFHF_ELEVATED ;;
  s_hf <- inverted_piecewise hf HF_RELAXED HF_NORMAL HF_ELEVATED ;;
  s_hr <- direct_piecewise hr HR_RELAXED HR_NORMAL HR_ELEVATED ;;
  Ok [ ("rmssd", s_rmssd); ("sdnn", s_sdnn); ("pnn50", s_pnn50);
       ("si", s_si); ("lfhf", s_lfhf); ("hf", s_hf); ("hr", s_hr) ]%string.

(** The local [composite], with the module global [WEIGHTS] read from
    the argument [weights]. *)
Definition composite_in (weights : dict)
  (rmssd sdnn pnn50 si lfhf hf hr : num) : result num :=
  scores <- sub_scores rmssd sdnn pnn50 si lfhf hf hr ;;
  weighted_sum scores weights (keys weights) (lit 0).

Definition clamp (composite : num) : num :=
  py_max (lit 0) (py_min (lit 100) composite).

Definition compute_stress_score_in (weights : dict)
  (rmssd sdnn pnn50 si lfhf hf hr : num) : result Z :=
  composite <- composite_in weights rmssd sdnn pnn50 si lfhf hf hr ;;
  to_int (clamp composite).

Definition composite := composite_in WEIGHTS.

Definition compute_stress_score := compute_stress_score_in WEIGHTS.

End Engine.

(** ** Exact rational arithmetic *)

#[export] Instance Exact : PyFloat := {|
  num := Q;
  lit := fun q => q;
  add := Qplus;
  sub := Qminus;
  mul := Qmult;
  quot := Qdiv;
  is_zero := fun y => Qeq_bool y 0;
  ltb := fun x y => negb (Qle_bool y x);
  leb := Qle_bool;
  to_int := fun x => Ok (py_round x)
|}.

(** ** IEEE 754 binary64 *)

Definition prec : Z := 53.
Definition emax : Z := 1024.

Definition of_Z (z : Z) : spec_float := binary_normalize prec emax z 0 false.

(** The double nearest to a decimal literal [n / d] (both below 2^53). *)
Definition of_literal (q : Q) : spec_float :=
  SFdiv prec emax (of_Z (Qnum q)) (of_Z (Zpos (Qden q))).

(** The exact value of a finite double. *)
Definition SF2Q (x : spec_float) : Q :=
  match x with
  | S754_finite s m e =>
      let mag := match e with
                 | Zneg p => Zpos m # Pos.pow 2 p
                 | _ => inject_Z (Zpos m * 2 ^ e)
                 end in
      if s then - mag else mag
  | _ => 0
  end.

Definition SF_is_zero (x : spec_float) : bool :=
  match x with
  | S754_zero _ => true
  | _ => false
  end.

(** [int(round(x))]: [round] raises on NaN and on the infinities. *)
Definition SF_to_int (x : spec_float) : result Z :=
  match x with
  | S754_nan => Raise ValueError
  | S754_infinity _ => Raise OverflowError
  | _ => Ok (py_round (SF2Q x))
  end.

#[export] Instance Binary64 : PyFloat := {|
  num := spec_float;
  lit := of_literal;
  add := SFadd prec emax;
  sub := SFsub prec emax;
  mul := SFmul prec emax;
  quot := SFdiv prec emax;
  is_zero := SF_is_zero;
  ltb := SFltb;
  leb := SFleb;
  to_int := SF_to_int
|}.

(** * Auxiliary definitions used to state the properties *)

Section Tables.

Context {F : PyFloat}.

(** The four divisors of [inverted_piecewise]. *)
Definition inverted_divisors (relaxed normal elevated : num) : list num :=
  [relaxed; sub relaxed normal; sub normal elevated; elevated].

(** The four divisors of [direct_piecewise]. *)
Definition direct_divisors (relaxed normal elevated : num) : list num :=
  [relaxed; sub normal relaxed; sub elevated normal; elevated].

Definition all_nonzero (l : list num) : bool :=
  forallb (fun d => negb (is_zero d)) l.

(** Every divisor met on the scoring path of [compute_stress_score]. *)
Definition scoring_divisors : list num :=
  inverted_divisors RMSSD_RELAXED RMSSD_NORMAL RMSSD_ELEVATED
  ++ inverted_divisors SDNN_RELAXED SDNN_NORMAL SDNN_ELEVATED
  ++ inverted_divisors PNN50_RELAXED PNN50_NORMAL PNN50_ELEVATED
  ++ direct_divisors SI_RELAXED SI_NORMAL SI_ELEVATED
  ++ direct_divisors LFHF_RELAXED LFHF_NORMAL LFHF_ELEVATED
  ++ inverted_divisors HF_RELAXED HF_NORMAL HF_ELEVATED
  ++ direct_divisors HR_RELAXED HR_NORMAL HR_ELEVATED.

(** A weights dictionary over the seven feature names. *)
Definition weights_table (w_rmssd w_sdnn w_pnn50 w_si w_lfhf w_hf w_hr : num)
  : dict :=
  [ ("rmssd", w_rmssd); ("sdnn", w_sdnn); ("pnn50", w_pnn50); ("si", w_si);
    ("lfhf", w_lfhf); ("hf", w_hf); ("hr", w_hr) ]%string.

(** The value of [sum(scores[k] * weights[k] for k in weights)] for such
    a table, written out. *)
Definition weighted (w1 w2 w3 w4 w5 w6 w7 s1 s2 s3 s4 s5 s6 s7 : num) : num :=
  add (add (add (add (add (add (add (lit 0)
    (mul s1 w1)) (mul s2 w2)) (mul s3 w3)) (mul s4 w4))
    (mul s5 w5)) (mul s6 w6)) (mul s7 w7).

(** [sum(weights.values())]. *)
Definition weight_sum (weights : dict) : num :=
  fold_left add (map snd weights) (lit 0).

End Tables.

Section Composition.

Context {F : PyFloat}.


End Composition.

(** The ordering invariant of a threshold band, per direction. *)
Definition inverted_band (relaxed normal elevated : Q) : Prop :=
  (0 < elevated /\ elevated < normal /\ normal < relaxed)%Q.

Definition direct_band (relaxed normal elevated : Q) : Prop :=
  (0 < relaxed /\ relaxed < normal /\ normal < elevated)%Q.

(** The formula of each band, in exact arithmetic. *)
Section Formulas.

Variables r n e : Q.

Open Scope Q_scope.

Definition inv1 (v : Q) : Q := py_max (F := Exact) 0 (12 * (1 - (v - r) / r)).
Definition inv2 (v : Q) : Q := 13 + (r - v) / (r - n) * 24.
Definition inv3 (v : Q) : Q := 38 + (n - v) / (n - e) * 24.
Definition inv4 (v : Q) : Q :=
  63 + py_min (F := Exact) 1 ((e - v) / e) * 37.

Definition dir1 (v : Q) : Q := v / r * 12.
Definition dir2 (v : Q) : Q := 13 + (v - r) / (n - r) * 24.
Definition dir3 (v : Q) : Q := 38 + (v - n) / (e - n) * 24.
Definition dir4 (v : Q) : Q :=
  63 + py_min (F := Exact) 1 ((v - e) / e) * 37.

End Formulas.

(** A call returns normally with a value equal to [x]. *)
Definition returns (c : result Q) (x : Q) : Prop :=
  exists s, c = Ok s /\ (s == x)%Q.


(** A weights dictionary whose values sum to 0.97. *)
Definition skewed_weights : @dict Exact :=
  weights_table (F := Exact) (22 # 100) (15 # 100) (10 # 100) (15 # 100)
    (15 # 100) (10 # 100) (10 # 100).

(** Some doubles: 0.0, 1.0 and 100.0. *)
Definition f0 : spec_float := S754_zero false.
Definition f1 : spec_float := S754_finite false 4503599627370496 (-52).
Definition f100 : spec_float := S754_finite false 7036874417766400 (-46).

(** The calls of [f] at the three cutoffs of a band. *)
Definition at_cutoffs (f : spec_float -> spec_float -> spec_float ->
                           spec_float -> result spec_float)
  (r n e : spec_float) : list (result spec_float) :=
  [f r r n e; f n r n e; f e r n e].

(** The mantissa of a finite double fits in 53 bits. *)
Definition mant_bounded (x : spec_float) : Prop :=
  match x with
  | S754_finite _ m _ => (Zpos (digits2_pos m) <= prec)%Z
  | _ => True
  end.

(** ** The benchmark harness ([benchmark])

    The scoring calls of the warm-up and of the timed loop, the
    latencies the timed loop records, and the minimum, maximum and
    percentiles taken from them. The clock [time.perf_counter_ns] is an
    arbitrary sequence of readings: the k-th call returns [clock k]. *)

(** What can end the harness: an exception of the engine, or an index
    out of range. *)
Inductive bench_exn : Set :=
| Py (e : exn)
| IndexError.

Inductive run (A : Type) : Type :=
| Completed (a : A)
| Aborted (e : bench_exn).

Arguments Completed {A} a.
Arguments Aborted {A} e.

Definition lift {A : Type} (c : result A) : run A :=
  match c with
  | Ok a => Completed a
  | Raise e => Aborted (Py e)
  end.

(** [l[i]]: a negative index counts from the end of the list. *)
Definition list_getitem {A : Type} (l : list A) (i : Z) : run A :=
  let j := if (i <? 0)%Z then (i + Z.of_nat (List.length l))%Z else i in
  if (j <? 0)%Z then Aborted IndexError
  else match nth_error l (Z.to_nat j) with
       | Some a => Completed a
       | None => Aborted IndexError
       end.

(** [int(x)] for a rational value: towards zero. *)
Definition py_int (x : Q) : Z :=
  if Qle_bool 0 x then Qfloor x else Qceiling x.

(** [int(x)] for a double. *)
Definition SF_int (x : spec_float) : result Z :=
  match x with
  | S754_nan => Raise ValueError
  | S754_infinity _ => Raise OverflowError
  | _ => Ok (py_int (SF2Q x))
  end.

Section Harness.

Context {F : PyFloat}.

Definition sample : Type := (num * num * num * num * num * num * num)%type.

Definition test_samples : list sample :=
  [ (lit 70, lit 90, lit 30, lit 80, lit (4 # 10), lit 500, lit 62);
    (lit 48, lit 60, lit 15, lit 170, lit (12 # 10), lit 250, lit 72);
    (lit 28, lit 38, lit 6, lit 380, lit 3, lit 90, lit 88);
    (lit 14, lit 22, lit (15 # 10), lit 620, lit (55 # 10), lit 25,
     lit 102) ].

(** [compute_stress_score( *sample )] *)
Definition score_sample (s : sample) : result Z :=
  let '(rmssd, sdnn, pnn50, si, lfhf, hf, hr) := s in
  compute_stress_score rmssd sdnn pnn50 si lfhf hf hr.

(** [for sample in test_samples: compute_stress_score( *sample )] *)
Fixpoint score_each (l : list sample) : run unit :=
  match l with
  | [] => Completed tt
  | s :: l' =>
      match score_sample s with
      | Ok _ => score_each l'
      | Raise e => Aborted (Py e)
      end
  end.

(** [for _ in range(n): body] *)
Fixpoint repeat_run (n : nat) (body : run unit) : run unit :=
  match n with
  | O => Completed tt
  | S n' =>
      match body with
      | Completed _ => repeat_run n' body
      | Aborted e => Aborted e
      end
  end.

Definition warm_up : run unit := repeat_run 100 (score_each test_samples).

(** The timed loop, with [n] iterations left, at loop index [i], after
    [tick] clock readings, with the latencies recorded so far. The
    quotient [(end - start) / 1000] of two integers is taken on the
    difference converted to a number, which in binary64 is the same
    double as long as the two readings are less than 2^53 ns apart. *)
Fixpoint timed_loop (clock : nat -> Z) (n : nat) (i : Z) (tick : nat)
  (latencies : list num) : run (list num) :=
  match n with
  | O => Completed latencies
  | S n' =>
      match list_getitem test_samples (i mod 4) with
      | Aborted e => Aborted e
      | Completed s =>
          let start := clock tick in
          match score_sample s with
          | Raise e => Aborted (Py e)
          | Ok _ =>
              let finish := clock (S tick) in
              match div (lit (inject_Z (finish - start))) (lit 1000) with
              | Raise e => Aborted (Py e)
              | Ok latency =>
                  timed_loop clock n' (i + 1) (S (S tick))
                    (latencies ++ [latency])
              end
          end
      end
  end.

(** [min(l)] and [max(l)]: [ValueError] on an empty list, otherwise the
    first smallest (largest) item. *)
Definition list_min (l : list num) : result num :=
  match l with
  | [] => Raise ValueError
  | x :: l' => Ok (fold_left py_min l' x)
  end.

Definition list_max (l : list num) : result num :=
  match l with
  | [] => Raise ValueError
  | x :: l' => Ok (fold_left py_max l' x)
  end.

(** [sorted(l)]: ascending and stable. *)
Fixpoint insert (x : num) (l : list num) : list num :=
  match l with
  | [] => [x]
  | y :: l' => if ltb x y then x :: y :: l' else y :: insert x l'
  end.

Definition sorted (l : list num) : list num :=
  fold_left (fun acc x => insert x acc) l [].

(** [sorted(latencies)[int(q * len(latencies))]], with [int] on numbers
    given by [int_of]. *)
Definition percentile (int_of : num -> result Z) (q : Q)
  (latencies : list num) : run num :=
  match int_of (mul (lit q)
                  (lit (inject_Z (Z.of_nat (List.length latencies))))) with
  | Raise e => Aborted (Py e)
  | Ok i => list_getitem (sorted latencies) i
  end.

(** The latency recorded by the [j]-th iteration that starts after
    [tick] clock readings. *)
Definition recorded (clock : nat -> Z) (tick : nat) (j : nat) : num :=
  quot (lit (inject_Z (clock (S (tick + 2 * j)) - clock (tick + 2 * j)%nat)))
       (lit 1000).

End Harness.

(** [int] on exact numbers, as an operation that cannot fail. *)
Definition exact_int (x : Q) : result Z := Ok (py_int x).

(** A list of rationals in ascending order. *)
Definition ascending (l : list Q) : Prop :=
  forall i j, (i <= j < List.length l)%nat -> (nth i l 0 <= nth j l 0)%Q.

(** The latency recorded by iteration [j], in exact arithmetic. *)
Definition latency_of (clock : nat -> Z) (j : nat) : Q :=
  (inject_Z (clock (S (2 * j)) - clock (2 * j)%nat) / 1000)%Q.

(** ** Further notions used to state properties of the engine *)

(** The keys of the dictionary [scores]. *)
Definition feature_names : list string :=
  [ "rmssd"; "sdnn"; "pnn50"; "si"; "lfhf"; "hf"; "hr" ]%string.

(** The second feature vector is at least as stressed as the first in
    every component: not larger where a high value means calm, not
    smaller where a high value means stress. *)
Definition more_stressed (a b : Q * Q * Q * Q * Q * Q * Q) : Prop :=
  let '(rmssd1, sdnn1, pnn501, si1, lfhf1, hf1, hr1) := a in
  let '(rmssd2, sdnn2, pnn502, si2, lfhf2, hf2, hr2) := b in
  (rmssd2 <= rmssd1 /\ sdnn2 <= sdnn1 /\ pnn502 <= pnn501 /\
   si1 <= si2 /\ lfhf1 <= lfhf2 /\ hf2 <= hf1 /\ hr1 <= hr2)%Q.

(** * Properties *)

(** ** Facts that hold for every number type *)

Section Generic.

Context {F : PyFloat}.

Lemma div_nonzero (x y : num) :
  is_zero y = false -> div x y = Ok (quot x y).
Proof. intros H. unfold div. now rewrite H. Qed.

Lemma div_zero (x y : num) :
  is_zero y = true -> div x y = Raise ZeroDivisionError.
Proof. intros H. unfold div. now rewrite H. Qed.

Lemma negb_true_false (b : bool) : negb b = true -> b = false.
Proof. now destruct b. Qed.

Lemma inverted_piecewise_total (value relaxed normal elevated : num) :
  all_nonzero (inverted_divisors relaxed normal elevated) = true ->
  exists s, inverted_piecewise value relaxed normal elevated = Ok s.
Proof.
  unfold all_nonzero, inverted_divisors; simpl.
  rewrite !andb_true_iff.
  intros (Hr & Hrn & Hne & He & _).
  apply negb_true_false in Hr, Hrn, Hne, He.
  unfold inverted_piecewise.
  destruct (leb relaxed value).
  - rewrite (div_nonzero _ _ Hr). simpl. eauto.
  - destruct (leb normal value).
    + rewrite (div_nonzero _ _ Hrn). simpl. eauto.
    + destruct (leb elevated value).
      * rewrite (div_nonzero _ _ Hne). simpl. eauto.
      * destruct (ltb (lit 0) elevated).
        -- rewrite (div_nonzero _ _ He). simpl. eauto.
        -- simpl. eauto.
Qed.

Lemma direct_piecewise_total (value relaxed normal elevated : num) :
  all_nonzero (direct_divisors relaxed normal elevated) = true ->
  exists s, direct_piecewise value relaxed normal elevated = Ok s.
Proof.
  unfold all_nonzero, direct_divisors; simpl.
  rewrite !andb_true_iff.
  intros (Hr & Hrn & Hne & He & _).
  apply negb_true_false in Hr, Hrn, Hne, He.
  unfold direct_piecewise.
  destruct (leb value relaxed).
  - destruct (ltb (lit 0) relaxed).
    + rewrite (div_nonzero _ _ Hr). simpl. eauto.
    + eauto.
  - destruct (leb value normal).
    + rewrite (div_nonzero _ _ Hrn). simpl. eauto.
    + destruct (leb value elevated).
      * rewrite (div_nonzero _ _ Hne). simpl. eauto.
      * destruct (ltb (lit 0) elevated).
        -- rewrite (div_nonzero _ _ He). simpl. eauto.
        -- simpl. eauto.
Qed.

Lemma all_nonzero_app (l1 l2 : list num) :
  all_nonzero (l1 ++ l2) = true ->
  all_nonzero l1 = true /\ all_nonzero l2 = true.
Proof.
  unfold all_nonzero. rewrite forallb_app. apply andb_true_iff.
Qed.

(** With non-zero divisors the seven sub-scores exist and the composite
    is their weighted sum, whatever the seven weights. *)
Lemma composite_in_total (w1 w2 w3 w4 w5 w6 w7 : num)
  (rmssd sdnn pnn50 si lfhf hf hr : num) :
  all_nonzero scoring_divisors = true ->
  exists s1 s2 s3 s4 s5 s6 s7,
    inverted_piecewise rmssd RMSSD_RELAXED RMSSD_NORMAL RMSSD_ELEVATED = Ok s1 /\
    inverted_piecewise sdnn SDNN_RELAXED SDNN_NORMAL SDNN_ELEVATED = Ok s2 /\
    inverted_piecewise pnn50 PNN50_RELAXED PNN50_NORMAL PNN50_ELEVATED = Ok s3 /\
    direct_piecewise si SI_RELAXED SI_NORMAL SI_ELEVATED = Ok s4 /\
    direct_piecewise lfhf LFHF_RELAXED LFHF_NORMAL LFHF_ELEVATED = Ok s5 /\
    inverted_piecewise hf HF_RELAXED HF_NORMAL HF_ELEVATED = Ok s6 /\
    direct_piecewise hr HR_RELAXED HR_NORMAL HR_ELEVATED = Ok s7 /\
    composite_in (weights_table w1 w2 w3 w4 w5 w6 w7)
      rmssd sdnn pnn50 si lfhf hf hr
    = Ok (weighted w1 w2 w3 w4 w5 w6 w7 s1 s2 s3 s4 s5 s6 s7).
Proof.
  unfold scoring_divisors. intros H.
  apply all_nonzero_app in H as [H1 H].
  apply all_nonzero_app in H as [H2 H].
  apply all_nonzero_app in H as [H3 H].
  apply all_nonzero_app in H as [H4 H].
  apply all_nonzero_app in H as [H5 H].
  apply all_nonzero_app in H as [H6 H7].
  destruct (inverted_piecewise_total rmssd _ _ _ H1) as [s1 E1].
  destruct (inverted_piecewise_total sdnn _ _ _ H2) as [s2 E2].
  destruct (inverted_piecewise_total pnn50 _ _ _ H3) as [s3 E3].
  destruct (direct_piecewise_total si _ _ _ H4) as [s4 E4].
  destruct (direct_piecewise_total lfhf _ _ _ H5) as [s5 E5].
  destruct (inverted_piecewise_total hf _ _ _ H6) as [s6 E6].
  destruct (direct_piecewise_total hr _ _ _ H7) as [s7 E7].
  exists s1, s2, s3, s4, s5, s6, s7.
  repeat (split; [assumption|]).
  unfold composite_in, sub_scores.
  rewrite E1, E2, E3, E4, E5, E6, E7. reflexivity.
Qed.

Lemma WEIGHTS_table :
  WEIGHTS = weights_table (lit (25 # 100)) (lit (15 # 100)) (lit (10 # 100))
              (lit (15 # 100)) (lit (15 # 100)) (lit (10 # 100))
              (lit (10 # 100)).
Proof. reflexivity. Qed.

Lemma score_of_composite (weights : dict)
  (rmssd sdnn pnn50 si lfhf hf hr c : num) :
  composite_in weights rmssd sdnn pnn50 si lfhf hf hr = Ok c ->
  compute_stress_score_in weights rmssd sdnn pnn50 si lfhf hf hr
  = to_int (clamp c).
Proof. intros H. unfold compute_stress_score_in. now rewrite H. Qed.

End Generic.

(** ** Exact arithmetic: the interpolation functions *)

Module ExactArith.

Open Scope Q_scope.

Lemma Qle_bool_true (x y : Q) : Qle_bool x y = true -> x <= y.
Proof. apply Qle_bool_iff. Qed.

Lemma Qle_bool_false (x y : Q) : Qle_bool x y = false -> y < x.
Proof.
  intros H. apply Qnot_le_lt. intros Hle.
  apply Qle_bool_iff in Hle. congruence.
Qed.

Lemma Qle_bool_of_le (x y : Q) : x <= y -> Qle_bool x y = true.
Proof. apply Qle_bool_iff. Qed.

Lemma Qle_bool_of_lt (x y : Q) : y < x -> Qle_bool x y = false.
Proof.
  intros H. destruct (Qle_bool x y) eqn:E; [|reflexivity].
  apply Qle_bool_true in E. lra.
Qed.

Lemma Qeq_bool_false (x y : Q) : ~ x == y -> Qeq_bool x y = false.
Proof.
  intros H. destruct (Qeq_bool x y) eqn:E; [|reflexivity].
  apply Qeq_bool_eq in E. contradiction.
Qed.

Lemma is_zero_pos (d : Q) : 0 < d -> @is_zero Exact d = false.
Proof. intros H. apply Qeq_bool_false. lra. Qed.

(** A quotient by a positive divisor, as a product with a positive
    inverse. *)
Lemma Qinv_pos_spec (d : Q) : 0 < d -> 0 < / d /\ d * / d == 1.
Proof.
  intros H. split.
  - now apply Qinv_lt_0_compat.
  - apply Qmult_inv_r. lra.
Qed.

(** [max] and [min] on rationals. *)
Lemma py_max_spec (a b : Q) :
  (b <= a /\ py_max (F := Exact) a b = a) \/
  (a < b /\ py_max (F := Exact) a b = b).
Proof.
  unfold py_max; simpl.
  destruct (Qle_bool b a) eqn:E; simpl.
  - left. split; [now apply Qle_bool_true | reflexivity].
  - right. split; [now apply Qle_bool_false | reflexivity].
Qed.

Lemma py_min_spec (a b : Q) :
  (a <= b /\ py_min (F := Exact) a b = a) \/
  (b < a /\ py_min (F := Exact) a b = b).
Proof.
  unfold py_min; simpl.
  destruct (Qle_bool a b) eqn:E; simpl.
  - left. split; [now apply Qle_bool_true | reflexivity].
  - right. split; [now apply Qle_bool_false | reflexivity].
Qed.

(** The value computed in each band, under the ordering invariant. *)
Section Bands.

Variables value relaxed normal elevated : Q.

Section Inverted.

Hypothesis band : inverted_band relaxed normal elevated.

Lemma inverted_band1 :
  relaxed <= value ->
  inverted_piecewise (F := Exact) value relaxed normal elevated
  = Ok (py_max (F := Exact) 0 (12 * (1 - (value - relaxed) / relaxed))).
Proof.
  destruct band as (He & Hn & Hr). intros H.
  unfold inverted_piecewise; simpl.
  rewrite (Qle_bool_of_le H).
  unfold div. rewrite is_zero_pos by lra. reflexivity.
Qed.

Lemma inverted_band2 :
  normal <= value -> value < relaxed ->
  inverted_piecewise (F := Exact) value relaxed normal elevated
  = Ok (13 + (relaxed - value) / (relaxed - normal) * 24).
Proof.
  destruct band as (He & Hn & Hr). intros H1 H2.
  unfold inverted_piecewise; simpl.
  rewrite (Qle_bool_of_lt H2), (Qle_bool_of_le H1).
  unfold div. rewrite is_zero_pos by lra. reflexivity.
Qed.

Lemma inverted_band3 :
  elevated <= value -> value < normal ->
  inverted_piecewise (F := Exact) value relaxed normal elevated
  = Ok (38 + (normal - value) / (normal - elevated) * 24).
Proof.
  destruct band as (He & Hn & Hr). intros H1 H2.
  unfold inverted_piecewise; simpl.
  rewrite (@Qle_bool_of_lt relaxed value) by lra.
  rewrite (Qle_bool_of_lt H2), (Qle_bool_of_le H1).
  unfold div. rewrite is_zero_pos by lra. reflexivity.
Qed.

Lemma inverted_band4 :
  value < elevated ->
  inverted_piecewise (F := Exact) value relaxed normal elevated
  = Ok (63 + py_min (F := Exact) 1 ((elevated - value) / elevated) * 37).
Proof.
  destruct band as (He & Hn & Hr). intros H.
  unfold inverted_piecewise; simpl.
  rewrite (@Qle_bool_of_lt relaxed value) by lra.
  rewrite (@Qle_bool_of_lt normal value) by lra.
  rewrite (Qle_bool_of_lt H).
  rewrite (@Qle_bool_of_lt elevated 0) by lra. simpl.
  unfold div. rewrite is_zero_pos by lra. reflexivity.
Qed.

End Inverted.

Section Direct.

Hypothesis band : direct_band relaxed normal elevated.

Lemma direct_band1 :
  value <= relaxed ->
  direct_piecewise (F := Exact) value relaxed normal elevated
  = Ok (value / relaxed * 12).
Proof.
  destruct band as (Hr & Hn & He). intros H.
  unfold direct_piecewise; simpl.
  rewrite (Qle_bool_of_le H).
  rewrite (@Qle_bool_of_lt relaxed 0) by lra. simpl.
  unfold div. rewrite is_zero_pos by lra. reflexivity.
Qed.

Lemma direct_band2 :
  relaxed < value -> value <= normal ->
  direct_piecewise (F := Exact) value relaxed normal elevated
  = Ok (13 + (value - relaxed) / (normal - relaxed) * 24).
Proof.
  destruct band as (Hr & Hn & He). intros H1 H2.
  unfold direct_piecewise; simpl.
  rewrite (Qle_bool_of_lt H1), (Qle_bool_of_le H2).
  unfold div. rewrite is_zero_pos by lra. reflexivity.
Qed.

Lemma direct_band3 :
  normal < value -> value <= elevated ->
  direct_piecewise (F := Exact) value relaxed normal elevated
  = Ok (38 + (value - normal) / (elevated - normal) * 24).
Proof.
  destruct band as (Hr & Hn & He). intros H1 H2.
  unfold direct_piecewise; simpl.
  rewrite (@Qle_bool_of_lt value relaxed) by lra.
  rewrite (Qle_bool_of_lt H1), (Qle_bool_of_le H2).
  unfold div. rewrite is_zero_pos by lra. reflexivity.
Qed.

Lemma direct_band4 :
  elevated < value ->
  direct_piecewise (F := Exact) value relaxed normal elevated
  = Ok (63 + py_min (F := Exact) 1 ((value - elevated) / elevated) * 37).
Proof.
  destruct band as (Hr & Hn & He). intros H.
  unfold direct_piecewise; simpl.
  rewrite (@Qle_bool_of_lt value relaxed) by lra.
  rewrite (@Qle_bool_of_lt value normal) by lra.
  rewrite (Qle_bool_of_lt H).
  rewrite (@Qle_bool_of_lt elevated 0) by lra. simpl.
  unfold div. rewrite is_zero_pos by lra. reflexivity.
Qed.

End Direct.

End Bands.

(** Range and monotonicity of the four formulas of each direction. *)

Ltac with_inverse d :=
  let Hi := fresh "Hi" in
  let Hdi := fresh "Hdi" in
  let i := fresh "i" in
  unfold Qdiv in *;
  assert (0 < / d /\ d * / d == 1) as [Hi Hdi] by (apply Qinv_pos_spec; lra);
  set (i := / d) in *; clearbody i.

Ltac case_max a b :=
  let E := fresh "E" in
  destruct (py_max_spec a b) as [[? E] | [? E]]; rewrite E in *; clear E.

Ltac case_min a b :=
  let E := fresh "E" in
  destruct (py_min_spec a b) as [[? E] | [? E]]; rewrite E in *; clear E.

Section FormulaFacts.

Variables r n e : Q.

Lemma inv1_range v : 0 < r -> r <= v -> 0 <= inv1 r v <= 12.
Proof.
  intros Hr Hv. unfold inv1.
  case_max 0 (12 * (1 - (v - r) / r)); [lra|].
  with_inverse r. split; nra.
Qed.

Lemma inv2_range v : n < r -> n <= v -> v <= r -> 13 <= inv2 r n v <= 37.
Proof.
  intros Hr H1 H2. unfold inv2. with_inverse (r - n). split; nra.
Qed.

Lemma inv3_range v : e < n -> e <= v -> v <= n -> 38 <= inv3 n e v <= 62.
Proof.
  intros Hr H1 H2. unfold inv3. with_inverse (n - e). split; nra.
Qed.

Lemma inv4_range v : 0 < e -> v <= e -> 63 <= inv4 e v <= 100.
Proof.
  intros He Hv. unfold inv4.
  case_min 1 ((e - v) / e); [lra|].
  with_inverse e. split; nra.
Qed.

Lemma inv1_mono v1 v2 : 0 < r -> v1 <= v2 -> inv1 r v2 <= inv1 r v1.
Proof.
  intros Hr Hv. unfold inv1.
  case_max 0 (12 * (1 - (v2 - r) / r));
    case_max 0 (12 * (1 - (v1 - r) / r));
    with_inverse r; nra.
Qed.

Lemma inv2_mono v1 v2 : n < r -> v1 <= v2 -> inv2 r n v2 <= inv2 r n v1.
Proof. intros Hr Hv. unfold inv2. with_inverse (r - n). nra. Qed.

Lemma inv3_mono v1 v2 : e < n -> v1 <= v2 -> inv3 n e v2 <= inv3 n e v1.
Proof. intros Hr Hv. unfold inv3. with_inverse (n - e). nra. Qed.

Lemma inv4_mono v1 v2 : 0 < e -> v1 <= v2 -> inv4 e v2 <= inv4 e v1.
Proof.
  intros He Hv. unfold inv4.
  case_min 1 ((e - v2) / e); case_min 1 ((e - v1) / e);
    with_inverse e; nra.
Qed.

Lemma dir1_upper v : 0 < r -> v <= r -> dir1 r v <= 12.
Proof. intros Hr Hv. unfold dir1. with_inverse r. nra. Qed.

Lemma dir1_lower v : 0 < r -> 0 <= v -> 0 <= dir1 r v.
Proof. intros Hr Hv. unfold dir1. with_inverse r. nra. Qed.

Lemma dir1_negative v : 0 < r -> v < 0 -> dir1 r v < 0.
Proof. intros Hr Hv. unfold dir1. with_inverse r. nra. Qed.

Lemma dir2_range v : r < n -> r <= v -> v <= n -> 13 <= dir2 r n v <= 37.
Proof.
  intros Hr H1 H2. unfold dir2. with_inverse (n - r). split; nra.
Qed.

Lemma dir3_range v : n < e -> n <= v -> v <= e -> 38 <= dir3 n e v <= 62.
Proof.
  intros Hr H1 H2. unfold dir3. with_inverse (e - n). split; nra.
Qed.

Lemma dir4_range v : 0 < e -> e <= v -> 63 <= dir4 e v <= 100.
Proof.
  intros He Hv. unfold dir4.
  case_min 1 ((v - e) / e); [lra|].
  with_inverse e. split; nra.
Qed.

Lemma dir1_mono v1 v2 : 0 < r -> v1 <= v2 -> dir1 r v1 <= dir1 r v2.
Proof. intros Hr Hv. unfold dir1. with_inverse r. nra. Qed.

Lemma dir2_mono v1 v2 : r < n -> v1 <= v2 -> dir2 r n v1 <= dir2 r n v2.
Proof. intros Hr Hv. unfold dir2. with_inverse (n - r). nra. Qed.

Lemma dir3_mono v1 v2 : n < e -> v1 <= v2 -> dir3 n e v1 <= dir3 n e v2.
Proof. intros Hr Hv. unfold dir3. with_inverse (e - n). nra. Qed.

Lemma dir4_mono v1 v2 : 0 < e -> v1 <= v2 -> dir4 e v1 <= dir4 e v2.
Proof.
  intros He Hv. unfold dir4.
  case_min 1 ((v2 - e) / e); case_min 1 ((v1 - e) / e);
    with_inverse e; nra.
Qed.

End FormulaFacts.

(** The band a value falls in, with the formula that applies. *)
Lemma inverted_cases (v r n e : Q) :
  inverted_band r n e ->
  (r <= v /\ inverted_piecewise (F := Exact) v r n e = Ok (inv1 r v)) \/
  (n <= v < r /\ inverted_piecewise (F := Exact) v r n e = Ok (inv2 r n v)) \/
  (e <= v < n /\ inverted_piecewise (F := Exact) v r n e = Ok (inv3 n e v)) \/
  (v < e /\ inverted_piecewise (F := Exact) v r n e = Ok (inv4 e v)).
Proof.
  intros B.
  destruct (Qlt_le_dec v r) as [Hr|Hr];
    [|left; split; [assumption | now apply inverted_band1]].
  destruct (Qlt_le_dec v n) as [Hn|Hn];
    [|right; left; split; [lra | now apply inverted_band2]].
  destruct (Qlt_le_dec v e) as [He|He];
    [|right; right; left; split; [lra | now apply inverted_band3]].
  right; right; right. split; [assumption | now apply inverted_band4].
Qed.

Lemma direct_cases (v r n e : Q) :
  direct_band r n e ->
  (v <= r /\ direct_piecewise (F := Exact) v r n e = Ok (dir1 r v)) \/
  (r < v <= n /\ direct_piecewise (F := Exact) v r n e = Ok (dir2 r n v)) \/
  (n < v <= e /\ direct_piecewise (F := Exact) v r n e = Ok (dir3 n e v)) \/
  (e < v /\ direct_piecewise (F := Exact) v r n e = Ok (dir4 e v)).
Proof.
  intros B.
  destruct (Qlt_le_dec r v) as [Hr|Hr];
    [|left; split; [assumption | now apply direct_band1]].
  destruct (Qlt_le_dec n v) as [Hn|Hn];
    [|right; left; split; [lra | now apply direct_band2]].
  destruct (Qlt_le_dec e v) as [He|He];
    [|right; right; left; split; [lra | now apply direct_band3]].
  right; right; right. split; [assumption | now apply direct_band4].
Qed.

(** The band, the formula and the range of the result, together. *)
Lemma inverted_classify (v r n e : Q) :
  inverted_band r n e ->
  exists s, inverted_piecewise (F := Exact) v r n e = Ok s /\
    ((r <= v /\ s = inv1 r v /\ 0 <= s <= 12) \/
     (n <= v < r /\ s = inv2 r n v /\ 13 <= s <= 37) \/
     (e <= v < n /\ s = inv3 n e v /\ 38 <= s <= 62) \/
     (v < e /\ s = inv4 e v /\ 63 <= s <= 100)).
Proof.
  intros B. pose proof B as (He & Hn & Hr).
  destruct (inverted_cases v B) as [[H E] | [[H E] | [[H E] | [H E]]]];
    rewrite E; eexists; (split; [reflexivity|]).
  - left. repeat split; try assumption; apply inv1_range; lra.
  - right; left. repeat split; try tauto; apply inv2_range; lra.
  - right; right; left. repeat split; try tauto; apply inv3_range; lra.
  - right; right; right. repeat split; try assumption; apply inv4_range; lra.
Qed.

Lemma direct_classify (v r n e : Q) :
  direct_band r n e ->
  exists s, direct_piecewise (F := Exact) v r n e = Ok s /\
    ((v <= r /\ s = dir1 r v /\ s <= 12 /\
      ((0 <= v /\ 0 <= s) \/ (v < 0 /\ s < 0))) \/
     (r < v <= n /\ s = dir2 r n v /\ 13 <= s <= 37) \/
     (n < v <= e /\ s = dir3 n e v /\ 38 <= s <= 62) \/
     (e < v /\ s = dir4 e v /\ 63 <= s <= 100)).
Proof.
  intros B. pose proof B as (Hr & Hn & He).
  destruct (direct_cases v B) as [[H E] | [[H E] | [[H E] | [H E]]]];
    rewrite E; eexists; (split; [reflexivity|]).
  - left. repeat split; try assumption.
    + apply dir1_upper; lra.
    + destruct (Qlt_le_dec v 0) as [Hneg | Hpos].
      * right. split; [assumption | now apply dir1_negative].
      * left. split; [assumption | now apply dir1_lower].
  - right; left. repeat split; try tauto; apply dir2_range; lra.
  - right; right; left. repeat split; try tauto; apply dir3_range; lra.
  - right; right; right. repeat split; try assumption; apply dir4_range; lra.
Qed.

Lemma inverted_monotone (v1 v2 r n e : Q) :
  inverted_band r n e -> v1 <= v2 ->
  exists s1 s2,
    inverted_piecewise (F := Exact) v1 r n e = Ok s1 /\
    inverted_piecewise (F := Exact) v2 r n e = Ok s2 /\
    s2 <= s1.
Proof.
  intros B Hv. pose proof B as (He & Hn & Hr).
  destruct (inverted_classify v1 B) as (s1 & E1 & C1).
  destruct (inverted_classify v2 B) as (s2 & E2 & C2).
  exists s1, s2. repeat split; try assumption.
  destruct C1 as [(H1 & -> & R1) | [(H1 & -> & R1) | [(H1 & -> & R1) | (H1 & -> & R1)]]];
    destruct C2 as [(H2 & -> & R2) | [(H2 & -> & R2) | [(H2 & -> & R2) | (H2 & -> & R2)]]];
    try lra.
  - apply inv1_mono; lra.
  - apply inv2_mono; lra.
  - apply inv3_mono; lra.
  - apply inv4_mono; lra.
Qed.

Lemma direct_monotone (v1 v2 r n e : Q) :
  direct_band r n e -> v1 <= v2 ->
  exists s1 s2,
    direct_piecewise (F := Exact) v1 r n e = Ok s1 /\
    direct_piecewise (F := Exact) v2 r n e = Ok s2 /\
    s1 <= s2.
Proof.
  intros B Hv. pose proof B as (Hr & Hn & He).
  destruct (direct_classify v1 B) as (s1 & E1 & C1).
  destruct (direct_classify v2 B) as (s2 & E2 & C2).
  exists s1, s2. repeat split; try assumption.
  destruct C1 as [(H1 & -> & R1 & _) | [(H1 & -> & R1) | [(H1 & -> & R1) | (H1 & -> & R1)]]];
    destruct C2 as [(H2 & -> & R2 & _) | [(H2 & -> & R2) | [(H2 & -> & R2) | (H2 & -> & R2)]]];
    try lra.
  - apply dir1_mono; lra.
  - apply dir2_mono; lra.
  - apply dir3_mono; lra.
  - apply dir4_mono; lra.
Qed.

(** Values at the three cutoffs, and of the next band's formula there. *)
Lemma inverted_at_cutoffs (r n e : Q) :
  inverted_band r n e ->
  returns (inverted_piecewise (F := Exact) r r n e) 12 /\
  returns (inverted_piecewise (F := Exact) n r n e) 37 /\
  returns (inverted_piecewise (F := Exact) e r n e) 62.
Proof.
  intros B. pose proof B as (He & Hn & Hr). unfold returns.
  repeat split.
  - rewrite inverted_band1 by (assumption || lra).
    eexists. split; [reflexivity|].
    case_max 0 (12 * (1 - (r - r) / r)); with_inverse r; nra.
  - rewrite inverted_band2 by (assumption || lra).
    eexists. split; [reflexivity|]. with_inverse (r - n). nra.
  - rewrite inverted_band3 by (assumption || lra).
    eexists. split; [reflexivity|]. with_inverse (n - e). nra.
Qed.

Lemma direct_at_cutoffs (r n e : Q) :
  direct_band r n e ->
  returns (direct_piecewise (F := Exact) r r n e) 12 /\
  returns (direct_piecewise (F := Exact) n r n e) 37 /\
  returns (direct_piecewise (F := Exact) e r n e) 62.
Proof.
  intros B. pose proof B as (Hr & Hn & He). unfold returns.
  repeat split.
  - rewrite direct_band1 by (assumption || lra).
    eexists. split; [reflexivity|]. with_inverse r. nra.
  - rewrite direct_band2 by (assumption || lra).
    eexists. split; [reflexivity|]. with_inverse (n - r). nra.
  - rewrite direct_band3 by (assumption || lra).
    eexists. split; [reflexivity|]. with_inverse (e - n). nra.
Qed.

Lemma next_band_at_cutoffs (r n e : Q) :
  (inv2 r n r == 13 /\ inv3 n e n == 38 /\ inv4 e e == 63) /\
  (dir2 r n r == 13 /\ dir3 n e n == 38 /\ dir4 e e == 63).
Proof.
  unfold inv2, inv3, inv4, dir2, dir3, dir4.
  assert (Z : forall d x, (d - d) / x == 0).
  { intros d x. unfold Qdiv. setoid_replace (d - d) with 0 by ring. ring. }
  repeat split; try (rewrite Z; ring);
    case_min 1 ((e - e) / e); rewrite Z in *; lra.
Qed.

(** The unguarded division of [inverted_piecewise]. *)
Lemma inverted_relaxed_zero (v n e : Q) :
  0 <= v ->
  inverted_piecewise (F := Exact) v 0 n e = Raise ZeroDivisionError.
Proof.
  intros H. unfold inverted_piecewise; simpl.
  rewrite (Qle_bool_of_le H). reflexivity.
Qed.

(** The same division is guarded in [direct_piecewise]. *)
Lemma direct_relaxed_zero (v n e : Q) :
  v <= 0 -> direct_piecewise (F := Exact) v 0 n e = Ok 0.
Proof.
  intros H. unfold direct_piecewise; simpl.
  rewrite (Qle_bool_of_le H). reflexivity.
Qed.

(** The division by [elevated] is guarded in both functions: with
    [elevated = 0] the last branch returns 63 + 1 * 37. *)
Lemma elevated_zero_guarded (v r n : Q) :
  (0 < n -> n < r -> v < 0 ->
   returns (inverted_piecewise (F := Exact) v r n 0) 100) /\
  (r < v -> n < v -> 0 < v ->
   returns (direct_piecewise (F := Exact) v r n 0) 100).
Proof.
  split; intros H1 H2 H3.
  - unfold inverted_piecewise; simpl.
    rewrite (@Qle_bool_of_lt r v), (@Qle_bool_of_lt n v),
      (@Qle_bool_of_lt 0 v) by lra.
    simpl. eexists. split; [reflexivity | lra].
  - unfold direct_piecewise; simpl.
    rewrite (@Qle_bool_of_lt v r), (@Qle_bool_of_lt v n),
      (@Qle_bool_of_lt v 0) by lra.
    simpl. eexists. split; [reflexivity | lra].
Qed.

(** *** Rounding *)

Lemma Qfloor_unique (x : Q) (z : Z) :
  inject_Z z <= x -> x < inject_Z (z + 1) -> Qfloor x = z.
Proof.
  intros Hlo Hhi.
  pose proof (Qfloor_le x) as Hf1.
  pose proof (Qlt_floor x) as Hf2.
  assert (inject_Z z < inject_Z (Qfloor x + 1)) as H1 by lra.
  assert (inject_Z (Qfloor x) < inject_Z (z + 1)) as H2 by lra.
  rewrite <- Zlt_Qlt in H1, H2. lia.
Qed.

Lemma Qfloor_bounds (x : Q) (a b : Z) :
  inject_Z a <= x -> x < inject_Z (b + 1) -> (a <= Qfloor x <= b)%Z.
Proof.
  intros Hlo Hhi.
  pose proof (Qfloor_le x) as Hf1.
  pose proof (Qlt_floor x) as Hf2.
  assert (inject_Z a < inject_Z (Qfloor x + 1)) as H1 by lra.
  assert (inject_Z (Qfloor x) < inject_Z (b + 1)) as H2 by lra.
  rewrite <- Zlt_Qlt in H1, H2. lia.
Qed.

Lemma c_round_bounds (x : Q) (b : Z) :
  0 <= x -> x <= inject_Z b -> (0 <= c_round x <= b)%Z.
Proof.
  intros H0 Hb. unfold c_round.
  rewrite (Qle_bool_of_le H0).
  apply Qfloor_bounds.
  - change (inject_Z 0) with 0. lra.
  - rewrite inject_Z_plus. change (inject_Z 1) with 1. lra.
Qed.

(** A value clamped to [0, 100] rounds to an integer of [0, 100]. *)
Lemma py_round_bounds (x : Q) :
  0 <= x -> x <= 100 -> (0 <= py_round x <= 100)%Z.
Proof.
  intros H0 H1. unfold py_round.
  destruct (Qeq_bool _ _).
  - assert (0 <= c_round (x / 2) <= 50)%Z; [|lia].
    apply c_round_bounds.
    + unfold Qdiv. change (/ 2) with (1 # 2). lra.
    + unfold Qdiv. change (/ 2) with (1 # 2). change (inject_Z 50) with 50. lra.
  - apply c_round_bounds; [assumption|]. change (inject_Z 100) with 100. lra.
Qed.

(** [c_round] at a half-integer: away from zero. *)
Lemma c_round_half (k : Z) :
  c_round (inject_Z k + (1 # 2)) = if (0 <=? k)%Z then (k + 1)%Z else k.
Proof.
  unfold c_round.
  destruct (0 <=? k)%Z eqn:E.
  - apply Z.leb_le in E. rewrite Zle_Qle in E. change (inject_Z 0) with 0 in E.
    rewrite Qle_bool_of_le by lra.
    apply Qfloor_unique; rewrite ?inject_Z_plus; change (inject_Z 1) with 1; lra.
  - apply Z.leb_gt in E.
    assert (k + 1 <= 0)%Z as E' by lia.
    rewrite Zle_Qle, inject_Z_plus in E'.
    change (inject_Z 1) with 1 in E'. change (inject_Z 0) with 0 in E'.
    rewrite Qle_bool_of_lt by lra.
    assert (Qfloor (- (inject_Z k + (1 # 2)) + (1 # 2)) = (- k)%Z) as ->; [|lia].
    apply Qfloor_unique; rewrite ?inject_Z_plus, ?inject_Z_opp;
      change (inject_Z 1) with 1; lra.
Qed.

(** [c_round] at a quarter past a half-integer multiple: the two cases
    met when halving a half-integer. *)
Lemma c_round_quarter (j : Z) :
  c_round (inject_Z j + (1 # 4)) = j.
Proof.
  unfold c_round.
  destruct (Qle_bool 0 (inject_Z j + (1 # 4))) eqn:E.
  - apply Qfloor_unique; rewrite ?inject_Z_plus; change (inject_Z 1) with 1; lra.
  - assert (Qfloor (- (inject_Z j + (1 # 4)) + (1 # 2)) = (- j)%Z) as ->; [|lia].
    apply Qfloor_unique; rewrite ?inject_Z_plus, ?inject_Z_opp;
      change (inject_Z 1) with 1; lra.
Qed.

Lemma c_round_three_quarters (j : Z) :
  c_round (inject_Z j + (3 # 4)) = (j + 1)%Z.
Proof.
  unfold c_round.
  destruct (Qle_bool 0 (inject_Z j + (3 # 4))) eqn:E.
  - apply Qfloor_unique; rewrite ?inject_Z_plus; change (inject_Z 1) with 1; lra.
  - assert (Qfloor (- (inject_Z j + (3 # 4)) + (1 # 2)) = (- (j + 1))%Z) as ->;
      [|lia].
    apply Qfloor_unique; rewrite ?inject_Z_plus, ?inject_Z_opp, ?inject_Z_plus;
      change (inject_Z 1) with 1; lra.
Qed.

Lemma c_round_comp (x y : Q) : x == y -> c_round x = c_round y.
Proof.
  intros H. unfold c_round.
  rewrite H. destruct (Qle_bool 0 y); now rewrite H.
Qed.

Lemma py_round_comp (x y : Q) : x == y -> py_round x = py_round y.
Proof.
  intros H. unfold py_round.
  rewrite (c_round_comp H).
  assert (Qeq_bool (Qabs (x - inject_Z (c_round y))) (1 # 2)
          = Qeq_bool (Qabs (y - inject_Z (c_round y))) (1 # 2)) as ->.
  { destruct (Qeq_bool (Qabs (y - inject_Z (c_round y))) (1 # 2)) eqn:E.
    - apply Qeq_bool_iff. apply Qeq_bool_iff in E. now rewrite H.
    - apply Qeq_bool_false. intros E'. rewrite H in E'.
      apply Qeq_bool_iff in E'. congruence. }
  rewrite (@c_round_comp (x / 2) (y / 2)) by now rewrite H.
  reflexivity.
Qed.

(** Halfway cases go to the even neighbour. *)
Lemma py_round_half_even (x : Q) (k : Z) :
  x == inject_Z k + (1 # 2) ->
  Z.even (py_round x) = true /\ (py_round x = k \/ py_round x = (k + 1)%Z).
Proof.
  intros Hx. rewrite (py_round_comp Hx).
  unfold py_round. rewrite c_round_half.
  assert (Qeq_bool
            (Qabs (inject_Z k + (1 # 2)
                   - inject_Z (if (0 <=? k)%Z then (k + 1)%Z else k))) (1 # 2)
          = true) as ->.
  { apply Qeq_bool_iff.
    destruct (0 <=? k)%Z.
    - rewrite inject_Z_plus. change (inject_Z 1) with 1.
      setoid_replace (inject_Z k + (1 # 2) - (inject_Z k + 1)) with (- (1 # 2))
        by ring.
      reflexivity.
    - setoid_replace (inject_Z k + (1 # 2) - inject_Z k) with (1 # 2) by ring.
      reflexivity. }
  destruct (Z.even k) eqn:Ek.
  - apply Z.even_spec in Ek. destruct Ek as [j ->].
    rewrite (@c_round_comp _ (inject_Z j + (1 # 4))).
    + rewrite c_round_quarter. rewrite Z.even_mul. simpl. auto.
    + rewrite inject_Z_mult. change (inject_Z 2) with 2. field.
  - assert (Z.odd k = true) as Ok.
    { rewrite <- Z.negb_even. now rewrite Ek. }
    apply Z.odd_spec in Ok. destruct Ok as [j ->].
    rewrite (@c_round_comp _ (inject_Z j + (3 # 4))).
    + rewrite c_round_three_quarters. rewrite Z.even_mul.
      split; [reflexivity | right; lia].
    + rewrite inject_Z_plus, inject_Z_mult.
      change (inject_Z 2) with 2. change (inject_Z 1) with 1. field.
Qed.

End ExactArith.

(** ** Binary64: NaN, totality and the size of mantissas *)

Module Float64.

Lemma lit_0 : @lit Binary64 0 = f0.
Proof. vm_compute. reflexivity. Qed.

Lemma lit_1 : @lit Binary64 1 = f1.
Proof. vm_compute. reflexivity. Qed.

Lemma lit_100 : @lit Binary64 100 = f100.
Proof. vm_compute. reflexivity. Qed.

Lemma nan_leb_l (x : spec_float) : SFleb S754_nan x = false.
Proof. reflexivity. Qed.

Lemma nan_leb_r (x : spec_float) : SFleb x S754_nan = false.
Proof. now destruct x. Qed.

Lemma nan_sub_l (x : spec_float) : SFsub prec emax S754_nan x = S754_nan.
Proof. reflexivity. Qed.

Lemma nan_sub_r (x : spec_float) : SFsub prec emax x S754_nan = S754_nan.
Proof. now destruct x. Qed.

Lemma pos_not_zero (x : spec_float) :
  SFltb f0 x = true -> SF_is_zero x = false.
Proof. destruct x; cbv; congruence. Qed.

(** The last branch of both functions when the quotient is NaN. *)
Lemma top_of_scale :
  SFadd prec emax (@lit Binary64 63) (SFmul prec emax f1 (@lit Binary64 37))
  = f100.
Proof. vm_compute. reflexivity. Qed.

(** The clamped composite is zero or a positive finite double below
    100, or 100 itself; [round] accepts all of these. *)
Lemma clamp_cases (c : spec_float) :
  clamp (F := Binary64) c = f0 \/
  clamp (F := Binary64) c = f100 \/
  (clamp (F := Binary64) c = c /\ SFltb c f100 = true /\ SFltb f0 c = true).
Proof.
  unfold clamp, py_max, py_min.
  rewrite lit_0, lit_100. change (@ltb Binary64) with SFltb.
  destruct (SFltb c f100) eqn:E1.
  - destruct (SFltb f0 c) eqn:E2.
    + right. right. repeat split; assumption || reflexivity.
    + left. reflexivity.
  - right. left. reflexivity.
Qed.

Lemma clamp_to_int (c : spec_float) :
  SF_to_int (clamp (F := Binary64) c)
  = Ok (py_round (SF2Q (clamp (F := Binary64) c))).
Proof.
  destruct (clamp_cases c) as [-> | [-> | (-> & H1 & H2)]];
    try reflexivity.
  destruct c as [s | s | | s m e]; try reflexivity.
  - destruct s; discriminate.
  - discriminate.
Qed.

(** *** Results of a rounding step carry at most 53 bits *)

Lemma shr_1_digits (r : shr_record) :
  Zdigits2 (shr_m (shr_1 r)) = Z.max 0 (Zdigits2 (shr_m r) - 1).
Proof.
  destruct r as [m b c].
  destruct m as [|[p|p|]|[p|p|]];
    cbn [shr_1 shr_m Zdigits2 digits2_pos];
    rewrite ?Pos2Z.inj_succ; lia.
Qed.

Lemma iter_shr_1_digits (p : positive) (r : shr_record) :
  Zdigits2 (shr_m (iter_pos shr_1 p r))
  = Z.max 0 (Zdigits2 (shr_m r) - Zpos p).
Proof.
  revert r. induction p as [p IH | p IH |]; intros r; simpl iter_pos.
  - rewrite !IH, shr_1_digits. lia.
  - rewrite !IH. lia.
  - apply shr_1_digits.
Qed.

Lemma shr_fexp_digits (m e : Z) (l : location) :
  (Zdigits2 (shr_m (fst (shr_fexp prec emax m e l))) <= prec)%Z.
Proof.
  unfold shr_fexp, shr.
  assert (shr_m (shr_record_of_loc m l) = m) as Hm.
  { destruct l as [|[]]; reflexivity. }
  set (d := Zdigits2 m).
  unfold fexp, emin, prec, emax.
  destruct (Z.max (d + e - 53) (3 - 1024 - 53) - e)%Z as [|p|p] eqn:En;
    simpl fst.
  - rewrite Hm. fold d. lia.
  - rewrite iter_shr_1_digits, Hm. fold d. lia.
  - rewrite Hm. fold d. lia.
Qed.

Lemma binary_round_aux_bounded (sx : bool) (mx ex : Z) (lx : location) :
  mant_bounded (binary_round_aux prec emax sx mx ex lx).
Proof.
  unfold binary_round_aux.
  destruct (shr_fexp prec emax mx ex lx) as [mrs' e'].
  set (m1 := round_nearest_even (shr_m mrs') (loc_of_shr_record mrs')).
  pose proof (shr_fexp_digits m1 e' loc_Exact) as H.
  destruct (shr_fexp prec emax m1 e' loc_Exact) as [mrs'' e''].
  simpl in H.
  destruct (shr_m mrs'') as [|m|m]; try exact I.
  destruct (e'' <=? emax - prec)%Z; [exact H | exact I].
Qed.

Lemma SFmul_bounded (x y : spec_float) : mant_bounded (SFmul prec emax x y).
Proof.
  destruct x, y; simpl; try exact I. apply binary_round_aux_bounded.
Qed.

Lemma binary_normalize_bounded (m e : Z) (b : bool) :
  mant_bounded (binary_normalize prec emax m e b).
Proof.
  unfold binary_normalize, binary_round.
  destruct m; try exact I;
    match goal with
    | |- context [shl_align ?a ?b ?c] => destruct (shl_align a b c)
    end; apply binary_round_aux_bounded.
Qed.

Lemma SFadd_bounded (x y : spec_float) :
  mant_bounded x -> mant_bounded y -> mant_bounded (SFadd prec emax x y).
Proof.
  intros Hx Hy.
  destruct x as [[]|[]| |sx mx ex], y as [[]|[]| |sy my ey];
    try exact I; try assumption.
  apply binary_normalize_bounded.
Qed.

Lemma weighted_bounded (w1 w2 w3 w4 w5 w6 w7 s1 s2 s3 s4 s5 s6 s7 : spec_float) :
  mant_bounded
    (weighted (F := Binary64) w1 w2 w3 w4 w5 w6 w7 s1 s2 s3 s4 s5 s6 s7).
Proof.
  unfold weighted.
  repeat (apply SFadd_bounded; [|apply SFmul_bounded]).
  rewrite lit_0. exact I.
Qed.

Lemma digits2_pos_bound (m : positive) :
  (Zpos m < 2 ^ Zpos (digits2_pos m))%Z.
Proof.
  induction m as [m IH | m IH |]; cbn [digits2_pos];
    rewrite ?Pos2Z.inj_succ, ?Z.pow_succ_r by lia; lia.
Qed.

(** The exact value of a positive double that compares below 100. *)
Lemma below_100_value (c : spec_float) :
  mant_bounded c -> SFltb c f100 = true -> SFltb f0 c = true ->
  (0 <= SF2Q c /\ SF2Q c <= 100)%Q.
Proof.
  destruct c as [s | s | | s m e]; try (destruct s; discriminate);
    try discriminate.
  intros Hb Hlt Hpos.
  destruct s; [discriminate|].
  unfold SFltb, SFcompare, f100 in Hlt.
  cbn [SF2Q].
  destruct (Z.compare_spec e (-46)) as [He | He | He]; try discriminate.
  - subst e.
    assert (m < 7036874417766400)%positive as Hc.
    { apply Pos.compare_lt_iff.
      destruct (Pos.compare_cont Eq m 7036874417766400) eqn:E;
        try discriminate.
      exact E. }
    apply Pos2Z.pos_lt_pos in Hc. clear - Hc.
    split; unfold Qle; simpl Qnum; simpl Qden; lia.
  - destruct e as [|p|p]; try lia.
    split; unfold Qle; simpl Qnum; simpl Qden; [lia|].
    rewrite Pos2Z.inj_pow.
    pose proof (digits2_pos_bound m) as Hm.
    assert (2 ^ Zpos (digits2_pos m) <= 64 * 2 ^ 47)%Z as H53.
    { change (64 * 2 ^ 47)%Z with (2 ^ 53)%Z.
      apply Z.pow_le_mono_r; [lia | exact Hb]. }
    assert (2 ^ 47 <= 2 ^ Zpos p)%Z as Hp.
    { apply Z.pow_le_mono_r; lia. }
    assert (0 < 2 ^ 47)%Z as H47 by reflexivity.
    clear - Hm H53 Hp H47.
    set (A := (2 ^ Zpos p)%Z) in *.
    set (B := (2 ^ Zpos (digits2_pos m))%Z) in *.
    set (C := (2 ^ 47)%Z) in *.
    clearbody A B C. lia.
Qed.

(** The score of a clamped composite lies in [0, 100]. *)
Lemma clamp_score_range (c : spec_float) :
  mant_bounded c ->
  exists z, to_int (clamp (F := Binary64) c) = Ok z /\ (0 <= z <= 100)%Z.
Proof.
  intros Hb. change (@to_int Binary64) with SF_to_int.
  rewrite clamp_to_int. eexists. split; [reflexivity|].
  destruct (clamp_cases c) as [-> | [-> | (-> & H1 & H2)]].
  - vm_compute. split; discriminate.
  - vm_compute. split; discriminate.
  - destruct (below_100_value c Hb H1 H2).
    now apply ExactArith.py_round_bounds.
Qed.

Lemma scoring_divisors_nonzero :
  all_nonzero (scoring_divisors (F := Binary64)) = true.
Proof. vm_compute. reflexivity. Qed.

(** NaN falls through every comparison to the last branch. *)
Lemma capped_nan (e : spec_float) :
  (if SFltb (@lit Binary64 0) e
   then bind (div (F := Binary64) S754_nan e)
             (fun q => Ok (py_min (F := Binary64) (@lit Binary64 1) q))
   else Ok (@lit Binary64 1))
  = Ok f1.
Proof.
  rewrite lit_0, lit_1.
  destruct (SFltb f0 e) eqn:E; [|reflexivity].
  unfold div. change (@is_zero Binary64) with SF_is_zero.
  rewrite (pos_not_zero e E). reflexivity.
Qed.

Lemma inverted_nan (r n e : spec_float) :
  inverted_piecewise (F := Binary64) S754_nan r n e = Ok f100.
Proof.
  unfold inverted_piecewise.
  change (@leb Binary64) with SFleb. change (@ltb Binary64) with SFltb.
  rewrite !nan_leb_r.
  change (@sub Binary64 e S754_nan) with (SFsub prec emax e S754_nan).
  rewrite nan_sub_r, capped_nan.
  cbn [bind]. exact (f_equal Ok top_of_scale).
Qed.

Lemma direct_nan (r n e : spec_float) :
  direct_piecewise (F := Binary64) S754_nan r n e = Ok f100.
Proof.
  unfold direct_piecewise.
  change (@leb Binary64) with SFleb. change (@ltb Binary64) with SFltb.
  rewrite !nan_leb_l.
  change (@sub Binary64 S754_nan e) with (SFsub prec emax S754_nan e).
  rewrite nan_sub_l, capped_nan.
  cbn [bind]. exact (f_equal Ok top_of_scale).
Qed.

(** The three cutoffs of each default band, evaluated in binary64. *)
Lemma binary64_default_cutoffs :
  let expected := [Ok (@lit Binary64 12); Ok (@lit Binary64 37);
                   Ok (@lit Binary64 62)] in
  at_cutoffs (inverted_piecewise (F := Binary64))
    RMSSD_RELAXED RMSSD_NORMAL RMSSD_ELEVATED = expected /\
  at_cutoffs (inverted_piecewise (F := Binary64))
    SDNN_RELAXED SDNN_NORMAL SDNN_ELEVATED = expected /\
  at_cutoffs (inverted_piecewise (F := Binary64))
    PNN50_RELAXED PNN50_NORMAL PNN50_ELEVATED = expected /\
  at_cutoffs (direct_piecewise (F := Binary64))
    SI_RELAXED SI_NORMAL SI_ELEVATED = expected /\
  at_cutoffs (direct_piecewise (F := Binary64))
    LFHF_RELAXED LFHF_NORMAL LFHF_ELEVATED = expected /\
  at_cutoffs (inverted_piecewise (F := Binary64))
    HF_RELAXED HF_NORMAL HF_ELEVATED = expected /\
  at_cutoffs (direct_piecewise (F := Binary64))
    HR_RELAXED HR_NORMAL HR_ELEVATED = expected.
Proof. repeat split; vm_compute; reflexivity. Qed.

(** With [relaxed] a zero, the first branch of [inverted_piecewise]
    divides by it. *)
Lemma binary64_inverted_relaxed_zero (s : bool) (v n e : spec_float) :
  SFleb (S754_zero s) v = true ->
  inverted_piecewise (F := Binary64) v (S754_zero s) n e
  = Raise ZeroDivisionError.
Proof.
  intros H. unfold inverted_piecewise.
  change (@leb Binary64) with SFleb. rewrite H.
  now rewrite div_zero.
Qed.

(** The four sample vectors of the benchmark. *)
Lemma benchmark_samples :
  map (fun x : Q * Q * Q * Q * Q * Q * Q =>
         let '(rmssd, sdnn, pnn50, si, lfhf, hf, hr) := x in
         compute_stress_score (F := Binary64) (lit rmssd) (lit sdnn)
           (lit pnn50) (lit si) (lit lfhf) (lit hf) (lit hr))
    [ (70, 90, 30, 80, 4 # 10, 500, 62);
      (48, 60, 15, 170, 12 # 10, 250, 72);
      (28, 38, 6, 380, 3, 90, 88);
      (14, 22, 15 # 10, 620, 55 # 10, 25, 102) ]%Q
  = [Ok 10%Z; Ok 27%Z; Ok 51%Z; Ok 74%Z].
Proof. vm_compute. reflexivity. Qed.

End Float64.

(** ** The composite score in both readings *)

Module Score.

Import ExactArith Float64.

Lemma exact_divisors_nonzero :
  all_nonzero (scoring_divisors (F := Exact)) = true.
Proof. vm_compute. reflexivity. Qed.

Lemma exact_clamp_range (c : Q) :
  (0 <= clamp (F := Exact) c /\ clamp (F := Exact) c <= 100)%Q.
Proof.
  unfold clamp. change (@lit Exact 0) with 0%Q. change (@lit Exact 100) with 100%Q.
  destruct (py_min_spec 100 c) as [[? E] | [? E]]; rewrite E;
    destruct (py_max_spec 0 100) as [[? E1] | [? E1]];
    destruct (py_max_spec 0 c) as [[? E2] | [? E2]];
    rewrite ?E1, ?E2; split; lra.
Qed.

(** Scoring with any seven weights returns an integer of [0, 100]. *)
Lemma exact_score_in_range (w1 w2 w3 w4 w5 w6 w7 : Q)
  (rmssd sdnn pnn50 si lfhf hf hr : Q) :
  exists z,
    compute_stress_score_in (F := Exact)
      (weights_table (F := Exact) w1 w2 w3 w4 w5 w6 w7)
      rmssd sdnn pnn50 si lfhf hf hr = Ok z
    /\ (0 <= z <= 100)%Z.
Proof.
  destruct (composite_in_total (F := Exact) w1 w2 w3 w4 w5 w6 w7
              rmssd sdnn pnn50 si lfhf hf hr exact_divisors_nonzero)
    as (s1 & s2 & s3 & s4 & s5 & s6 & s7 & _ & _ & _ & _ & _ & _ & _ & Hc).
  rewrite (score_of_composite (F := Exact) _ _ _ _ _ _ _ _ Hc).
  eexists. split; [reflexivity|].
  destruct (exact_clamp_range
              (weighted (F := Exact) w1 w2 w3 w4 w5 w6 w7 s1 s2 s3 s4 s5 s6 s7)).
  now apply py_round_bounds.
Qed.

Lemma binary64_score_in_range (w1 w2 w3 w4 w5 w6 w7 : spec_float)
  (rmssd sdnn pnn50 si lfhf hf hr : spec_float) :
  exists z,
    compute_stress_score_in (F := Binary64)
      (weights_table (F := Binary64) w1 w2 w3 w4 w5 w6 w7)
      rmssd sdnn pnn50 si lfhf hf hr = Ok z
    /\ (0 <= z <= 100)%Z.
Proof.
  destruct (composite_in_total (F := Binary64) w1 w2 w3 w4 w5 w6 w7
              rmssd sdnn pnn50 si lfhf hf hr scoring_divisors_nonzero)
    as (s1 & s2 & s3 & s4 & s5 & s6 & s7 & _ & _ & _ & _ & _ & _ & _ & Hc).
  rewrite (score_of_composite (F := Binary64) _ _ _ _ _ _ _ _ Hc).
  apply clamp_score_range, weighted_bounded.
Qed.

Lemma exact_score_range (rmssd sdnn pnn50 si lfhf hf hr : Q) :
  exists z,
    compute_stress_score (F := Exact) rmssd sdnn pnn50 si lfhf hf hr = Ok z
    /\ (0 <= z <= 100)%Z.
Proof.
  unfold compute_stress_score. rewrite WEIGHTS_table.
  apply exact_score_in_range.
Qed.

Lemma binary64_score_range (rmssd sdnn pnn50 si lfhf hf hr : spec_float) :
  exists z,
    compute_stress_score (F := Binary64) rmssd sdnn pnn50 si lfhf hf hr = Ok z
    /\ (0 <= z <= 100)%Z.
Proof.
  unfold compute_stress_score. rewrite WEIGHTS_table.
  apply binary64_score_in_range.
Qed.

(** When the composite exists, the score is the rounded clamp. *)
Lemma exact_score_is_round (rmssd sdnn pnn50 si lfhf hf hr c : Q) :
  composite (F := Exact) rmssd sdnn pnn50 si lfhf hf hr = Ok c ->
  compute_stress_score (F := Exact) rmssd sdnn pnn50 si lfhf hf hr
  = Ok (py_round (clamp (F := Exact) c)).
Proof.
  intros H. unfold compute_stress_score.
  now rewrite (score_of_composite (F := Exact) _ _ _ _ _ _ _ _ H).
Qed.

Lemma binary64_score_is_round
  (rmssd sdnn pnn50 si lfhf hf hr c : spec_float) :
  composite (F := Binary64) rmssd sdnn pnn50 si lfhf hf hr = Ok c ->
  compute_stress_score (F := Binary64) rmssd sdnn pnn50 si lfhf hf hr
  = Ok (py_round (SF2Q (clamp (F := Binary64) c))).
Proof.
  intros H. unfold compute_stress_score.
  rewrite (score_of_composite (F := Binary64) _ _ _ _ _ _ _ _ H).
  apply clamp_to_int.
Qed.

End Score.

(** ** The score as a function of the sub-scores *)

Module Composed.

Import ExactArith Float64 Score.

Section Body.

Context {F : PyFloat}.



End Body.



End Composed.

Import Composed.

(** * The specification's claims *)

Import ExactArith Float64 Score.



(** In binary64 the smallest negative double, -5e-324, gets the
    sub-score -0.0 from [direct_piecewise]: a negative value need not
    give a negative sub-score. *)
Lemma direct_piecewise_signed_zero :
  direct_piecewise (F := Binary64) (S754_finite true 1 (-1074))
    (lit 100) (lit 250) (lit 500) = Ok (S754_zero true).
Proof. vm_compute. reflexivity. Qed.



(** C3. The division by [relaxed] in the first branch of
    [inverted_piecewise] is not guarded: with [relaxed = 0] and a value
    of at least 0 the call raises [ZeroDivisionError], in exact
    arithmetic and in binary64. *)
Theorem inverted_relaxed_zero_raises :
  inverted_piecewise (F := Exact) 1 0 (-1) (-2) = Raise ZeroDivisionError /\
  inverted_piecewise (F := Binary64)
    (lit 1) (lit 0) (lit (-1)) (lit (-2)) = Raise ZeroDivisionError.
Proof. split; vm_compute; reflexivity. Qed.

(** C4, as stated, fails: the relaxed profile does not score 9. *)
Lemma relaxed_profile_not_9 :
  compute_stress_score (F := Exact) 70 90 30 80 (4 # 10) 500 62 <> Ok 9%Z /\
  compute_stress_score (F := Binary64)
    (lit 70) (lit 90) (lit 30) (lit 80) (lit (4 # 10)) (lit 500) (lit 62)
  <> Ok 9%Z.
Proof. split; vm_compute; discriminate. Qed.

(** C4, amended. With the default thresholds and weights,
    [compute_stress_score(70, 90, 30, 80, 0.4, 500, 62)] returns 10 (the
    composite is about 9.96). *)
Theorem relaxed_profile_scores_10 :
  compute_stress_score (F := Exact) 70 90 30 80 (4 # 10) 500 62 = Ok 10%Z /\
  compute_stress_score (F := Binary64)
    (lit 70) (lit 90) (lit 30) (lit 80) (lit (4 # 10)) (lit 500) (lit 62)
  = Ok 10%Z.
Proof. split; vm_compute; reflexivity. Qed.

(** C5. Under the ordering invariant and for [v1 <= v2], the sub-score
    of [inverted_piecewise] at [v2] is at most the one at [v1], and the
    sub-score of [direct_piecewise] at [v2] is at least the one at [v1],
    also when [v1] and [v2] lie in different bands. *)
Theorem piecewise_monotone (v1 v2 ri ni ei rd nd ed : Q) :
  inverted_band ri ni ei ->
  direct_band rd nd ed ->
  (v1 <= v2)%Q ->
  (exists s1 s2,
      inverted_piecewise (F := Exact) v1 ri ni ei = Ok s1 /\
      inverted_piecewise (F := Exact) v2 ri ni ei = Ok s2 /\
      (s2 <= s1)%Q) /\
  (exists s1 s2,
      direct_piecewise (F := Exact) v1 rd nd ed = Ok s1 /\
      direct_piecewise (F := Exact) v2 rd nd ed = Ok s2 /\
      (s1 <= s2)%Q).
Proof.
  intros Bi Bd Hv. split.
  - now apply inverted_monotone.
  - now apply direct_monotone.
Qed.

Lemma piecewise_monotone_witness :
  inverted_band 60 40 20 /\ direct_band 100 250 500 /\ (35 <= 45)%Q /\
  ((exists s1 s2,
       inverted_piecewise (F := Exact) 35 60 40 20 = Ok s1 /\
       inverted_piecewise (F := Exact) 45 60 40 20 = Ok s2 /\
       (s2 <= s1)%Q) /\
   (exists s1 s2,
       direct_piecewise (F := Exact) 35 100 250 500 = Ok s1 /\
       direct_piecewise (F := Exact) 45 100 250 500 = Ok s2 /\
       (s1 <= s2)%Q)).
Proof.
  assert (Bi : inverted_band 60 40 20) by (repeat split; reflexivity).
  assert (Bd : direct_band 100 250 500) by (repeat split; reflexivity).
  assert (Hv : (35 <= 45)%Q) by (unfold Qle; simpl; lia).
  split; [exact Bi | split; [exact Bd | split; [exact Hv|]]].
  exact (piecewise_monotone Bi Bd Hv).
Defined.

(** C6. Under the ordering invariant, both interpolation functions
    return exactly 12 at the relaxed cutoff, 37 at the normal cutoff and
    62 at the elevated cutoff, while the formula of the next band takes
    the values 13, 38 and 63 there: the bands meet at the 12/13, 37/38
    and 62/63 seams. *)
Theorem cutoff_values (ri ni ei rd nd ed : Q) :
  inverted_band ri ni ei ->
  direct_band rd nd ed ->
  (returns (inverted_piecewise (F := Exact) ri ri ni ei) 12 /\
   returns (inverted_piecewise (F := Exact) ni ri ni ei) 37 /\
   returns (inverted_piecewise (F := Exact) ei ri ni ei) 62) /\
  (returns (direct_piecewise (F := Exact) rd rd nd ed) 12 /\
   returns (direct_piecewise (F := Exact) nd rd nd ed) 37 /\
   returns (direct_piecewise (F := Exact) ed rd nd ed) 62) /\
  (inv2 ri ni ri == 13 /\ inv3 ni ei ni == 38 /\ inv4 ei ei == 63)%Q /\
  (dir2 rd nd rd == 13 /\ dir3 nd ed nd == 38 /\ dir4 ed ed == 63)%Q.
Proof.
  intros Bi Bd.
  split; [now apply inverted_at_cutoffs|].
  split; [now apply direct_at_cutoffs|].
  split.
  - apply (next_band_at_cutoffs ri ni ei).
  - apply (next_band_at_cutoffs rd nd ed).
Qed.

Lemma cutoff_values_witness :
  inverted_band 60 40 20 /\ direct_band 100 250 500 /\
  ((returns (inverted_piecewise (F := Exact) 60 60 40 20) 12 /\
    returns (inverted_piecewise (F := Exact) 40 60 40 20) 37 /\
    returns (inverted_piecewise (F := Exact) 20 60 40 20) 62) /\
   (returns (direct_piecewise (F := Exact) 100 100 250 500) 12 /\
    returns (direct_piecewise (F := Exact) 250 100 250 500) 37 /\
    returns (direct_piecewise (F := Exact) 500 100 250 500) 62) /\
   (inv2 60 40 60 == 13 /\ inv3 40 20 40 == 38 /\ inv4 20 20 == 63)%Q /\
   (dir2 100 250 100 == 13 /\ dir3 250 500 250 == 38
    /\ dir4 500 500 == 63)%Q).
Proof.
  assert (Bi : inverted_band 60 40 20) by (repeat split; reflexivity).
  assert (Bd : direct_band 100 250 500) by (repeat split; reflexivity).
  split; [exact Bi | split; [exact Bd | exact (cutoff_values Bi Bd)]].
Defined.

(** C7, as stated, fails: a weights dictionary whose values sum to 0.97
    is an ordinary dictionary, and scoring with it goes through. *)
Lemma skewed_weights_accepted :
  ~ (Qabs (weight_sum (F := Exact) skewed_weights - 1) <= 1 # 1000000)%Q /\
  compute_stress_score_in (F := Exact) skewed_weights
    70 90 30 80 (4 # 10) 500 62 = Ok 10%Z.
Proof.
  split.
  - vm_compute. intros H. apply H. reflexivity.
  - vm_compute. reflexivity.
Qed.

(** C7, amended. The weights are never checked: the shipped [WEIGHTS]
    sum to exactly 1, and with any seven weights whatever, in place of
    [WEIGHTS], every scoring call still returns an integer in
    [0, 100]. *)
Theorem weights_never_checked :
  (weight_sum (F := Exact) WEIGHTS == 1)%Q /\
  weight_sum (F := Binary64) WEIGHTS = f1 /\
  (forall w1 w2 w3 w4 w5 w6 w7 rmssd sdnn pnn50 si lfhf hf hr : Q,
      exists z,
        compute_stress_score_in (F := Exact)
          (weights_table (F := Exact) w1 w2 w3 w4 w5 w6 w7)
          rmssd sdnn pnn50 si lfhf hf hr = Ok z
        /\ (0 <= z <= 100)%Z) /\
  (forall w1 w2 w3 w4 w5 w6 w7 rmssd sdnn pnn50 si lfhf hf hr : spec_float,
      exists z,
        compute_stress_score_in (F := Binary64)
          (weights_table (F := Binary64) w1 w2 w3 w4 w5 w6 w7)
          rmssd sdnn pnn50 si lfhf hf hr = Ok z
        /\ (0 <= z <= 100)%Z).
Proof.
  split; [vm_compute; reflexivity|].
  split; [vm_compute; reflexivity|].
  split; intros.
  - apply exact_score_in_range.
  - apply binary64_score_in_range.
Qed.

(** C8. The final rounding is round-half-to-even: whenever the clamped
    composite is exactly halfway between the integers [k] and [k + 1],
    the returned score is the even one of the two. *)
Theorem score_rounds_half_to_even :
  (forall (rmssd sdnn pnn50 si lfhf hf hr c : Q) (k : Z),
      composite (F := Exact) rmssd sdnn pnn50 si lfhf hf hr = Ok c ->
      (clamp (F := Exact) c == inject_Z k + (1 # 2))%Q ->
      exists z,
        compute_stress_score (F := Exact) rmssd sdnn pnn50 si lfhf hf hr = Ok z
        /\ Z.even z = true /\ (z = k \/ z = (k + 1)%Z)) /\
  (forall (rmssd sdnn pnn50 si lfhf hf hr c : spec_float) (k : Z),
      composite (F := Binary64) rmssd sdnn pnn50 si lfhf hf hr = Ok c ->
      (SF2Q (clamp (F := Binary64) c) == inject_Z k + (1 # 2))%Q ->
      exists z,
        compute_stress_score (F := Binary64) rmssd sdnn pnn50 si lfhf hf hr
        = Ok z
        /\ Z.even z = true /\ (z = k \/ z = (k + 1)%Z)).
Proof.
  split; intros rmssd sdnn pnn50 si lfhf hf hr c k Hc Hhalf.
  - rewrite (exact_score_is_round _ _ _ _ _ _ _ Hc).
    eexists. split; [reflexivity|]. now apply py_round_half_even.
  - rewrite (binary64_score_is_round _ _ _ _ _ _ _ Hc).
    eexists. split; [reflexivity|]. now apply py_round_half_even.
Qed.

Lemma score_rounds_half_to_even_witness :
  (exists c,
      composite (F := Exact) (425 # 10) 160 50 0 0 800 0 = Ok c /\
      (clamp (F := Exact) c == inject_Z 8 + (1 # 2))%Q /\
      exists z,
        compute_stress_score (F := Exact) (425 # 10) 160 50 0 0 800 0 = Ok z
        /\ Z.even z = true /\ (z = 8%Z \/ z = (8 + 1)%Z)) /\
  (exists c,
      composite (F := Binary64) (lit (425 # 10)) (lit 160) (lit 50)
        (lit 0) (lit 0) (lit 800) (lit 0) = Ok c /\
      (SF2Q (clamp (F := Binary64) c) == inject_Z 8 + (1 # 2))%Q /\
      exists z,
        compute_stress_score (F := Binary64) (lit (425 # 10)) (lit 160)
          (lit 50) (lit 0) (lit 0) (lit 800) (lit 0) = Ok z
        /\ Z.even z = true /\ (z = 8%Z \/ z = (8 + 1)%Z)).
Proof.
  split.
  - assert (Hc : composite (F := Exact) (425 # 10) 160 50 0 0 800 0
                 = Ok (5525000000000000000000 # 650000000000000000000))
      by (vm_compute; reflexivity).
    assert (Hh : (clamp (F := Exact)
                    (5525000000000000000000 # 650000000000000000000)
                  == inject_Z 8 + (1 # 2))%Q)
      by (vm_compute; reflexivity).
    eexists. split; [exact Hc | split; [exact Hh|]].
    exact (proj1 score_rounds_half_to_even _ _ _ _ _ _ _ _ _ Hc Hh).
  - assert (Hc : composite (F := Binary64) (lit (425 # 10)) (lit 160)
                   (lit 50) (lit 0) (lit 0) (lit 800) (lit 0)
                 = Ok (S754_finite false 4785074604081152 (-49)))
      by (vm_compute; reflexivity).
    assert (Hh : (SF2Q (clamp (F := Binary64)
                          (S754_finite false 4785074604081152 (-49)))
                  == inject_Z 8 + (1 # 2))%Q)
      by (vm_compute; reflexivity).
    eexists. split; [exact Hc | split; [exact Hh|]].
    exact (proj2 score_rounds_half_to_even _ _ _ _ _ _ _ _ _ Hc Hh).
Defined.

(** C9. A NaN feature value fails every comparison of the chain, so
    both interpolation functions reach their last branch, where
    [min(1.0, NaN)] keeps 1.0, and return exactly 100.0, whatever the
    thresholds; and [compute_stress_score] with a NaN among its inputs
    raises nothing and returns an integer (of [0, 100]). *)
Theorem nan_feature_scores :
  (forall r n e : spec_float,
      inverted_piecewise (F := Binary64) S754_nan r n e = Ok (lit 100)) /\
  (forall r n e : spec_float,
      direct_piecewise (F := Binary64) S754_nan r n e = Ok (lit 100)) /\
  (forall rmssd sdnn pnn50 si lfhf hf hr : spec_float,
      In S754_nan [rmssd; sdnn; pnn50; si; lfhf; hf; hr] ->
      exists z,
        compute_stress_score (F := Binary64) rmssd sdnn pnn50 si lfhf hf hr
        = Ok z
        /\ (0 <= z <= 100)%Z).
Proof.
  rewrite lit_100. repeat split.
  - apply inverted_nan.
  - apply direct_nan.
  - intros. apply binary64_score_range.
Qed.

Lemma nan_feature_scores_witness :
  In S754_nan [S754_nan; @lit Binary64 90; @lit Binary64 30;
               @lit Binary64 80; S754_nan; @lit Binary64 500;
               @lit Binary64 62] /\
  exists z,
    compute_stress_score (F := Binary64) S754_nan (lit 90) (lit 30) (lit 80)
      S754_nan (lit 500) (lit 62) = Ok z
    /\ (0 <= z <= 100)%Z.
Proof.
  assert (H : In S754_nan [S754_nan; @lit Binary64 90; @lit Binary64 30;
                           @lit Binary64 80; S754_nan; @lit Binary64 500;
                           @lit Binary64 62])
    by (left; reflexivity).
  split; [exact H|].
  exact (proj2 (proj2 nan_feature_scores) _ _ _ _ _ _ _ H).
Defined.

(** C10. With the default thresholds and weights no divisor met on the
    scoring path is zero (each relaxed cutoff, each relaxed-normal gap,
    each normal-elevated gap and each elevated cutoff), and
    [compute_stress_score] returns a result on all seven inputs: no call
    raises [ZeroDivisionError]. *)
Theorem default_table_total :
  all_nonzero (scoring_divisors (F := Exact)) = true /\
  all_nonzero (scoring_divisors (F := Binary64)) = true /\
  (forall rmssd sdnn pnn50 si lfhf hf hr : Q,
      exists z,
        compute_stress_score (F := Exact) rmssd sdnn pnn50 si lfhf hf hr
        = Ok z) /\
  (forall rmssd sdnn pnn50 si lfhf hf hr : spec_float,
      exists z,
        compute_stress_score (F := Binary64) rmssd sdnn pnn50 si lfhf hf hr
        = Ok z).
Proof.
  split; [exact exact_divisors_nonzero|].
  split; [exact scoring_divisors_nonzero|].
  split; intros.
  - destruct (exact_score_range rmssd sdnn pnn50 si lfhf hf hr) as (z & E & _).
    now exists z.
  - destruct (binary64_score_range rmssd sdnn pnn50 si lfhf hf hr)
      as (z & E & _).
    now exists z.
Qed.

(** * Further properties of the engine *)

Module Interpolation.

Import ExactArith.

Open Scope Q_scope.

Lemma is_zero_true (d : Q) : d == 0 -> @is_zero Exact d = true.
Proof. intros H. apply Qeq_bool_iff. exact H. Qed.

Lemma is_zero_false (d : Q) : ~ d == 0 -> @is_zero Exact d = false.
Proof. apply Qeq_bool_false. Qed.

Lemma is_zero_dec (d : Q) :
  (d == 0 /\ @is_zero Exact d = true) \/ (~ d == 0 /\ @is_zero Exact d = false).
Proof.
  destruct (Qeq_dec d 0) as [H | H].
  - left. split; [assumption | now apply is_zero_true].
  - right. split; [assumption | now apply is_zero_false].
Qed.

(** Comparisons of the chain, as propositions. *)
Lemma Qle_bool_cases (x y : Q) :
  (x <= y /\ Qle_bool x y = true) \/ (y < x /\ Qle_bool x y = false).
Proof.
  destruct (Qle_bool x y) eqn:E.
  - left. split; [now apply Qle_bool_true | reflexivity].
  - right. split; [now apply Qle_bool_false | reflexivity].
Qed.

(** The chain of [inverted_piecewise] with any thresholds: which branch
    runs, and what it returns. *)
Lemma inverted_branches (v r n e : Q) :
  (r <= v /\
   inverted_piecewise (F := Exact) v r n e
   = bind (div (F := Exact) (v - r) r)
       (fun q => Ok (py_max (F := Exact) 0 (12 * (1 - q))))) \/
  (n <= v < r /\
   inverted_piecewise (F := Exact) v r n e = Ok (inv2 r n v)) \/
  (e <= v /\ v < n /\ v < r /\
   inverted_piecewise (F := Exact) v r n e = Ok (inv3 n e v)) \/
  (v < e /\ v < n /\ v < r /\ 0 < e /\
   inverted_piecewise (F := Exact) v r n e = Ok (inv4 e v)) \/
  (v < e /\ v < n /\ v < r /\ e <= 0 /\
   inverted_piecewise (F := Exact) v r n e = Ok (63 + 1 * 37)).
Proof.
  unfold inverted_piecewise; simpl.
  destruct (Qle_bool_cases r v) as [[Hr ->] | [Hr ->]]; [left; now split|].
  destruct (Qle_bool_cases n v) as [[Hn ->] | [Hn ->]].
  { right; left. split; [lra|].
    unfold div. rewrite is_zero_false by lra. reflexivity. }
  destruct (Qle_bool_cases e v) as [[He ->] | [He ->]].
  { right; right; left. repeat split; try assumption.
    unfold div. rewrite is_zero_false by lra. reflexivity. }
  destruct (Qle_bool_cases e 0) as [[H0 ->] | [H0 ->]]; simpl.
  - right; right; right; right. repeat split; assumption.
  - right; right; right; left. repeat split; try assumption.
    unfold div. rewrite is_zero_false by lra. reflexivity.
Qed.

(** The same for [direct_piecewise]. *)
Lemma direct_branches (v r n e : Q) :
  (v <= r /\ 0 < r /\
   direct_piecewise (F := Exact) v r n e = Ok (dir1 r v)) \/
  (v <= r /\ r <= 0 /\
   direct_piecewise (F := Exact) v r n e = Ok 0) \/
  (r < v <= n /\
   direct_piecewise (F := Exact) v r n e = Ok (dir2 r n v)) \/
  (n < v /\ v <= e /\ r < v /\
   direct_piecewise (F := Exact) v r n e = Ok (dir3 n e v)) \/
  (e < v /\ n < v /\ r < v /\ 0 < e /\
   direct_piecewise (F := Exact) v r n e = Ok (dir4 e v)) \/
  (e < v /\ n < v /\ r < v /\ e <= 0 /\
   direct_piecewise (F := Exact) v r n e = Ok (63 + 1 * 37)).
Proof.
  unfold direct_piecewise; simpl.
  destruct (Qle_bool_cases v r) as [[Hr ->] | [Hr ->]].
  { destruct (Qle_bool_cases r 0) as [[H0 ->] | [H0 ->]]; simpl.
    - right; left. repeat split; assumption.
    - left. repeat split; try assumption.
      unfold div. rewrite is_zero_false by lra. reflexivity. }
  destruct (Qle_bool_cases v n) as [[Hn ->] | [Hn ->]].
  { right; right; left. split; [lra|].
    unfold div. rewrite is_zero_false by lra. reflexivity. }
  destruct (Qle_bool_cases v e) as [[He ->] | [He ->]].
  { right; right; right; left. repeat split; try assumption.
    unfold div. rewrite is_zero_false by lra. reflexivity. }
  destruct (Qle_bool_cases e 0) as [[H0 ->] | [H0 ->]]; simpl.
  - right; right; right; right; right. repeat split; assumption.
  - right; right; right; right; left. repeat split; try assumption.
    unfold div. rewrite is_zero_false by lra. reflexivity.
Qed.

End Interpolation.

Import Interpolation.

(** X1. Whatever the thresholds, [inverted_piecewise] raises exactly
    when [relaxed] is zero and the value is at least zero, and then it
    raises [ZeroDivisionError]; in every other case it returns a value.
    The divisions by the band gaps are only reached when the gap is
    positive. *)
Theorem inverted_raises_exactly (v r n e : Q) :
  ((r == 0 /\ 0 <= v)%Q /\
   inverted_piecewise (F := Exact) v r n e = Raise ZeroDivisionError) \/
  (~ (r == 0 /\ 0 <= v)%Q /\
   exists s, inverted_piecewise (F := Exact) v r n e = Ok s).
Proof.
  destruct (inverted_branches v r n e)
    as [[H E] | [[H E] | [(H & _ & Hr & E) | [(_ & _ & Hr & _ & E)
                                               | (_ & _ & Hr & _ & E)]]]];
    rewrite E.
  - destruct (is_zero_dec r) as [[Hz Ez] | [Hz Ez]]; unfold div; rewrite Ez.
    + left. split; [|reflexivity]. split; [assumption | lra].
    + right. split; [tauto | simpl; eauto].
  - right. split; [intros [Hz H0]; lra | eauto].
  - right. split; [intros [Hz H0]; lra | eauto].
  - right. split; [intros [Hz H0]; lra | eauto].
  - right. split; [intros [Hz H0]; lra | eauto].
Qed.

(** X2. [direct_piecewise] never raises, whatever the thresholds and the
    value: the divisions by [relaxed] and [elevated] are guarded, and
    the divisions by the band gaps are only reached when the gap is
    positive. *)
Theorem direct_never_raises (v r n e : Q) :
  exists s, direct_piecewise (F := Exact) v r n e = Ok s.
Proof.
  destruct (direct_branches v r n e)
    as [(_ & _ & E) | [(_ & _ & E) | [(_ & E) | [(_ & _ & _ & E)
        | [(_ & _ & _ & _ & E) | (_ & _ & _ & _ & E)]]]]];
    rewrite E; eauto.
Qed.

Module Shape.

Import ExactArith.

Open Scope Q_scope.

(** A quotient by a positive divisor, named, with its defining
    equation. *)
Ltac with_quotient a d :=
  let q := fresh "q" in
  let Hq := fresh "Hq" in
  assert (Hq : (a / d) * d == a) by (field; lra);
  set (q := a / d) in *; clearbody q.

Section Strict.

Variables r n e : Q.

Lemma inv1_zero v : 0 < r -> r <= v -> (inv1 r v == 0 <-> 2 * r <= v).
Proof.
  intros Hr Hv. unfold inv1.
  case_max 0 (12 * (1 - (v - r) / r)); with_quotient (v - r) r;
    split; intros; nra.
Qed.

Lemma inv2_above v : n < r -> v < r -> 13 < inv2 r n v.
Proof. intros Hr Hv. unfold inv2. with_quotient (r - v) (r - n). nra. Qed.

Lemma inv3_above v : e < n -> v < n -> 38 < inv3 n e v.
Proof. intros Hr Hv. unfold inv3. with_quotient (n - v) (n - e). nra. Qed.

Lemma inv4_above v : 0 < e -> v < e -> 63 < inv4 e v.
Proof.
  intros He Hv. unfold inv4.
  case_min 1 ((e - v) / e); [lra|].
  with_quotient (e - v) e. nra.
Qed.

Lemma inv4_top v : 0 < e -> v < e -> (inv4 e v == 100 <-> v <= 0).
Proof.
  intros He Hv. unfold inv4.
  case_min 1 ((e - v) / e); with_quotient (e - v) e; split; intros; nra.
Qed.

Lemma dir1_zero v : 0 < r -> (dir1 r v == 0 <-> v == 0).
Proof.
  intros Hr. unfold dir1. with_quotient v r. split; intros; nra.
Qed.

Lemma dir2_above v : r < n -> r < v -> 13 < dir2 r n v.
Proof. intros Hr Hv. unfold dir2. with_quotient (v - r) (n - r). nra. Qed.

Lemma dir3_above v : n < e -> n < v -> 38 < dir3 n e v.
Proof. intros Hr Hv. unfold dir3. with_quotient (v - n) (e - n). nra. Qed.

Lemma dir4_above v : 0 < e -> e < v -> 63 < dir4 e v.
Proof.
  intros He Hv. unfold dir4.
  case_min 1 ((v - e) / e); [lra|].
  with_quotient (v - e) e. nra.
Qed.

Lemma dir4_top v : 0 < e -> e < v -> (dir4 e v == 100 <-> 2 * e <= v).
Proof.
  intros He Hv. unfold dir4.
  case_min 1 ((v - e) / e); with_quotient (v - e) e; split; intros; nra.
Qed.

End Strict.

(** The band of a value with the strict range of its sub-score. *)
Lemma inverted_profile (v r n e : Q) :
  inverted_band r n e ->
  exists s, inverted_piecewise (F := Exact) v r n e = Ok s /\
    ((r <= v /\ s = inv1 r v /\ 0 <= s <= 12) \/
     (n <= v < r /\ s = inv2 r n v /\ 13 < s <= 37) \/
     (e <= v < n /\ s = inv3 n e v /\ 38 < s <= 62) \/
     (v < e /\ s = inv4 e v /\ 63 < s <= 100)).
Proof.
  intros B. pose proof B as (He & Hn & Hr).
  destruct (inverted_classify v B) as (s & E & C).
  exists s. split; [assumption|].
  destruct C as [(H & -> & R) | [(H & -> & R) | [(H & -> & R) | (H & -> & R)]]].
  - left. tauto.
  - right; left. repeat split; try tauto. apply inv2_above; lra.
  - right; right; left. repeat split; try tauto. apply inv3_above; lra.
  - right; right; right. repeat split; try tauto. apply inv4_above; lra.
Qed.

Lemma direct_profile (v r n e : Q) :
  direct_band r n e ->
  exists s, direct_piecewise (F := Exact) v r n e = Ok s /\
    ((v <= r /\ s = dir1 r v /\ s <= 12) \/
     (r < v <= n /\ s = dir2 r n v /\ 13 < s <= 37) \/
     (n < v <= e /\ s = dir3 n e v /\ 38 < s <= 62) \/
     (e < v /\ s = dir4 e v /\ 63 < s <= 100)).
Proof.
  intros B. pose proof B as (Hr & Hn & He).
  destruct (direct_classify v B) as (s & E & C).
  exists s. split; [assumption|].
  destruct C as [(H & -> & R & _) | [(H & -> & R) | [(H & -> & R) | (H & -> & R)]]].
  - left. tauto.
  - right; left. repeat split; try tauto. apply dir2_above; lra.
  - right; right; left. repeat split; try tauto. apply dir3_above; lra.
  - right; right; right. repeat split; try tauto. apply dir4_above; lra.
Qed.

End Shape.

Import Shape.

(** In binary64 the bounds of the next two properties are reached where
    exact arithmetic stays off them: the double after 250 gets the
    sub-score 38.0 from [direct_piecewise], the smallest positive double
    gets 100.0 from [inverted_piecewise], and the double before 1000
    gets 100.0 from [direct_piecewise]. *)
Lemma binary64_band_edges :
  direct_piecewise (F := Binary64)
    (S754_finite false 8796093022208001 (-45)) (lit 100) (lit 250) (lit 500)
  = Ok (lit 38) /\
  inverted_piecewise (F := Binary64)
    (S754_finite false 1 (-1074)) (lit 60) (lit 40) (lit 20)
  = Ok (lit 100) /\
  direct_piecewise (F := Binary64)
    (S754_finite false 8796093022207999 (-43)) (lit 100) (lit 250) (lit 500)
  = Ok (lit 100).
Proof. repeat split; vm_compute; reflexivity. Qed.

(** X3. Under the ordering invariant the sub-score tells the band of the
    value: it is at most 12, 37 or 62 exactly when the value is on the
    calm side of the relaxed, normal or elevated cutoff; and it never
    lies strictly between 12 and 13, 37 and 38, or 62 and 63. *)
Theorem sub_score_tells_band (v ri ni ei rd nd ed : Q) :
  inverted_band ri ni ei ->
  direct_band rd nd ed ->
  (exists s,
      inverted_piecewise (F := Exact) v ri ni ei = Ok s /\
      (ri <= v <-> s <= 12) /\ (ni <= v <-> s <= 37) /\
      (ei <= v <-> s <= 62) /\
      (s <= 12 \/ 13 <= s) /\ (s <= 37 \/ 38 <= s) /\
      (s <= 62 \/ 63 <= s))%Q /\
  (exists s,
      direct_piecewise (F := Exact) v rd nd ed = Ok s /\
      (v <= rd <-> s <= 12) /\ (v <= nd <-> s <= 37) /\
      (v <= ed <-> s <= 62) /\
      (s <= 12 \/ 13 <= s) /\ (s <= 37 \/ 38 <= s) /\
      (s <= 62 \/ 63 <= s))%Q.
Proof.
  intros Bi Bd. split.
  - pose proof Bi as (He & Hn & Hr).
    destruct (inverted_profile v Bi) as (s & E & C).
    exists s. split; [assumption|].
    destruct C as [(H & _ & R) | [(H & _ & R) | [(H & _ & R) | (H & _ & R)]]];
      repeat split; intros; try lra;
      solve [left; lra | right; lra].
  - pose proof Bd as (Hr & Hn & He).
    destruct (direct_profile v Bd) as (s & E & C).
    exists s. split; [assumption|].
    destruct C as [(H & _ & R) | [(H & _ & R) | [(H & _ & R) | (H & _ & R)]]];
      repeat split; intros; try lra;
      solve [left; lra | right; lra].
Qed.

Lemma sub_score_tells_band_witness :
  inverted_band 60 40 20 /\ direct_band 100 250 500 /\
  ((exists s,
       inverted_piecewise (F := Exact) 45 60 40 20 = Ok s /\
       (60 <= 45 <-> s <= 12) /\ (40 <= 45 <-> s <= 37) /\
       (20 <= 45 <-> s <= 62) /\
       (s <= 12 \/ 13 <= s) /\ (s <= 37 \/ 38 <= s) /\
       (s <= 62 \/ 63 <= s))%Q /\
   (exists s,
       direct_piecewise (F := Exact) 45 100 250 500 = Ok s /\
       (45 <= 100 <-> s <= 12) /\ (45 <= 250 <-> s <= 37) /\
       (45 <= 500 <-> s <= 62) /\
       (s <= 12 \/ 13 <= s) /\ (s <= 37 \/ 38 <= s) /\
       (s <= 62 \/ 63 <= s))%Q).
Proof.
  assert (Bi : inverted_band 60 40 20) by (repeat split; reflexivity).
  assert (Bd : direct_band 100 250 500) by (repeat split; reflexivity).
  split; [exact Bi | split; [exact Bd | exact (sub_score_tells_band 45 Bi Bd)]].
Defined.

(** X4. Under the ordering invariant the sub-score saturates at both
    ends: [inverted_piecewise] is 0 for every value from twice the
    relaxed cutoff on and 100 for every value up to 0;
    [direct_piecewise] is 0 at the value 0 and 100 for every value from
    twice the elevated cutoff on. *)
Theorem sub_score_saturation (v_calm v_low v_high ri ni ei rd nd ed : Q) :
  inverted_band ri ni ei ->
  direct_band rd nd ed ->
  (2 * ri <= v_calm)%Q ->
  (v_low <= 0)%Q ->
  (2 * ed <= v_high)%Q ->
  returns (inverted_piecewise (F := Exact) v_calm ri ni ei) 0 /\
  returns (inverted_piecewise (F := Exact) v_low ri ni ei) 100 /\
  returns (direct_piecewise (F := Exact) 0 rd nd ed) 0 /\
  returns (direct_piecewise (F := Exact) v_high rd nd ed) 100.
Proof.
  intros Bi Bd Hc Hl Hh.
  pose proof Bi as (Hei & Hni & Hri). pose proof Bd as (Hrd & Hnd & Hed).
  unfold returns. repeat split.
  - destruct (inverted_profile v_calm Bi) as (s & E & C).
    exists s. split; [assumption|].
    destruct C as [(H & -> & R) | [(H & _ & R) | [(H & _ & R) | (H & _ & R)]]];
      try lra.
    apply inv1_zero; lra.
  - destruct (inverted_profile v_low Bi) as (s & E & C).
    exists s. split; [assumption|].
    destruct C as [(H & _ & R) | [(H & _ & R) | [(H & _ & R) | (H & -> & R)]]];
      try lra.
    apply inv4_top; lra.
  - destruct (direct_profile 0 Bd) as (s & E & C).
    exists s. split; [assumption|].
    destruct C as [(H & -> & R) | [(H & _ & R) | [(H & _ & R) | (H & _ & R)]]];
      try lra.
    apply dir1_zero; [lra | reflexivity].
  - destruct (direct_profile v_high Bd) as (s & E & C).
    exists s. split; [assumption|].
    destruct C as [(H & _ & R) | [(H & _ & R) | [(H & _ & R) | (H & -> & R)]]];
      try lra.
    apply dir4_top; lra.
Qed.

Lemma sub_score_saturation_witness :
  inverted_band 60 40 20 /\ direct_band 100 250 500 /\
  (2 * 60 <= 130)%Q /\ (-3 <= 0)%Q /\ (2 * 500 <= 1200)%Q /\
  (returns (inverted_piecewise (F := Exact) 130 60 40 20) 0 /\
   returns (inverted_piecewise (F := Exact) (-3) 60 40 20) 100 /\
   returns (direct_piecewise (F := Exact) 0 100 250 500) 0 /\
   returns (direct_piecewise (F := Exact) 1200 100 250 500) 100).
Proof.
  assert (Bi : inverted_band 60 40 20) by (repeat split; reflexivity).
  assert (Bd : direct_band 100 250 500) by (repeat split; reflexivity).
  assert (Hc : (2 * 60 <= 130)%Q) by (unfold Qle; simpl; lia).
  assert (Hl : (-3 <= 0)%Q) by (unfold Qle; simpl; lia).
  assert (Hh : (2 * 500 <= 1200)%Q) by (unfold Qle; simpl; lia).
  repeat (split; [assumption|]).
  exact (sub_score_saturation Bi Bd Hc Hl Hh).
Defined.

Module Composite.

Import ExactArith Float64 Score Shape.

Open Scope Q_scope.

(** [round] returns a nearest integer. *)
Lemma c_round_nearest (x : Q) :
  x - (1 # 2) <= inject_Z (c_round x) <= x + (1 # 2).
Proof.
  unfold c_round.
  destruct (Qle_bool 0 x).
  - pose proof (Qfloor_le (x + (1 # 2))) as H1.
    pose proof (Qlt_floor (x + (1 # 2))) as H2.
    rewrite inject_Z_plus in H2. change (inject_Z 1) with 1 in H2.
    split; lra.
  - pose proof (Qfloor_le (- x + (1 # 2))) as H1.
    pose proof (Qlt_floor (- x + (1 # 2))) as H2.
    rewrite inject_Z_plus in H2. change (inject_Z 1) with 1 in H2.
    rewrite inject_Z_opp. split; lra.
Qed.

Lemma py_round_nearest (x : Q) :
  x - (1 # 2) <= inject_Z (py_round x) <= x + (1 # 2).
Proof.
  destruct (Qeq_bool (Qabs (x - inject_Z (c_round x))) (1 # 2)) eqn:E.
  - apply Qeq_bool_eq in E.
    assert (x == inject_Z (c_round x) + (1 # 2)
            \/ x == inject_Z (c_round x + -1) + (1 # 2)) as [H | H].
    { revert E. apply Qabs_case; intros H0 E.
      - left. lra.
      - right. rewrite inject_Z_plus. change (inject_Z (-1)) with (- (1)).
        lra. }
    + destruct (py_round_half_even H) as [_ [-> | ->]];
        rewrite ?inject_Z_plus; change (inject_Z 1) with 1; split; lra.
    + destruct (py_round_half_even H) as [_ [-> | ->]];
        rewrite ?inject_Z_plus in *;
        change (inject_Z 1) with 1 in *;
        change (inject_Z (-1)) with (- (1)) in *; split; lra.
  - unfold py_round. rewrite E. apply c_round_nearest.
Qed.

Lemma py_round_monotone (x y : Q) :
  x <= y -> (py_round x <= py_round y)%Z.
Proof.
  intros H.
  destruct (Z_le_gt_dec (py_round x) (py_round y)) as [Hle | Hgt];
    [assumption | exfalso].
  assert (py_round y + 1 <= py_round x)%Z as H1 by lia.
  rewrite Zle_Qle, inject_Z_plus in H1. change (inject_Z 1) with 1 in H1.
  pose proof (py_round_nearest x) as Hx.
  pose proof (py_round_nearest y) as Hy.
  assert (x == y) as Heq by lra.
  rewrite (py_round_comp Heq) in Hgt. lia.
Qed.

Lemma clamp_monotone (c1 c2 : Q) :
  c1 <= c2 -> clamp (F := Exact) c1 <= clamp (F := Exact) c2.
Proof.
  intros H. unfold clamp.
  change (@lit Exact 0) with 0. change (@lit Exact 100) with 100.
  destruct (py_min_spec 100 c1) as [[? ->] | [? ->]];
    destruct (py_min_spec 100 c2) as [[? ->] | [? ->]];
    destruct (py_max_spec 0 100) as [[? E0] | [? E0]];
    destruct (py_max_spec 0 c1) as [[? E1] | [? E1]];
    destruct (py_max_spec 0 c2) as [[? E2] | [? E2]];
    rewrite ?E0, ?E1, ?E2; lra.
Qed.

(** Inside [0, 100] the clamp changes nothing. *)
Lemma clamp_inside (c : Q) :
  0 <= c -> c <= 100 -> clamp (F := Exact) c == c.
Proof.
  intros H0 H1. unfold clamp.
  change (@lit Exact 0) with 0. change (@lit Exact 100) with 100.
  destruct (py_min_spec 100 c) as [[? ->] | [? ->]];
    destruct (py_max_spec 0 100) as [[? E0] | [? E0]];
    destruct (py_max_spec 0 c) as [[? E1] | [? E1]];
    rewrite ?E0, ?E1; lra.
Qed.

(** The ordering invariant of the seven default bands. *)
Lemma default_bands :
  inverted_band (@RMSSD_RELAXED Exact) (@RMSSD_NORMAL Exact)
    (@RMSSD_ELEVATED Exact) /\
  inverted_band (@SDNN_RELAXED Exact) (@SDNN_NORMAL Exact)
    (@SDNN_ELEVATED Exact) /\
  inverted_band (@PNN50_RELAXED Exact) (@PNN50_NORMAL Exact)
    (@PNN50_ELEVATED Exact) /\
  direct_band (@SI_RELAXED Exact) (@SI_NORMAL Exact) (@SI_ELEVATED Exact) /\
  direct_band (@LFHF_RELAXED Exact) (@LFHF_NORMAL Exact)
    (@LFHF_ELEVATED Exact) /\
  inverted_band (@HF_RELAXED Exact) (@HF_NORMAL Exact) (@HF_ELEVATED Exact) /\
  direct_band (@HR_RELAXED Exact) (@HR_NORMAL Exact) (@HR_ELEVATED Exact).
Proof. repeat split; reflexivity. Qed.

(** The composite as the weighted sum of the seven sub-scores. *)
Lemma composite_value (rmssd sdnn pnn50 si lfhf hf hr : Q)
  (s1 s2 s3 s4 s5 s6 s7 : Q) :
  inverted_piecewise (F := Exact) rmssd RMSSD_RELAXED RMSSD_NORMAL
    RMSSD_ELEVATED = Ok s1 ->
  inverted_piecewise (F := Exact) sdnn SDNN_RELAXED SDNN_NORMAL
    SDNN_ELEVATED = Ok s2 ->
  inverted_piecewise (F := Exact) pnn50 PNN50_RELAXED PNN50_NORMAL
    PNN50_ELEVATED = Ok s3 ->
  direct_piecewise (F := Exact) si SI_RELAXED SI_NORMAL SI_ELEVATED = Ok s4 ->
  direct_piecewise (F := Exact) lfhf LFHF_RELAXED LFHF_NORMAL
    LFHF_ELEVATED = Ok s5 ->
  inverted_piecewise (F := Exact) hf HF_RELAXED HF_NORMAL HF_ELEVATED
  = Ok s6 ->
  direct_piecewise (F := Exact) hr HR_RELAXED HR_NORMAL HR_ELEVATED = Ok s7 ->
  exists c,
    composite (F := Exact) rmssd sdnn pnn50 si lfhf hf hr = Ok c /\
    c == (25 # 100) * s1 + (15 # 100) * s2 + (10 # 100) * s3
         + (15 # 100) * s4 + (15 # 100) * s5 + (10 # 100) * s6
         + (10 # 100) * s7.
Proof.
  intros E1 E2 E3 E4 E5 E6 E7.
  unfold composite, composite_in, sub_scores.
  rewrite E1, E2, E3, E4, E5, E6, E7.
  eexists. split; [reflexivity|]. simpl. ring.
Qed.

End Composite.

Import Composite.

(** X8. [compute_stress_score] is monotone in the seven features taken
    together: if no feature of the second vector is on the calmer side
    of the first (RMSSD, SDNN, pNN50 and HF not larger; SI, LF/HF and HR
    not smaller), then its score is not smaller. *)
Theorem score_monotone
  (rmssd1 sdnn1 pnn501 si1 lfhf1 hf1 hr1 : Q)
  (rmssd2 sdnn2 pnn502 si2 lfhf2 hf2 hr2 : Q) :
  more_stressed (rmssd1, sdnn1, pnn501, si1, lfhf1, hf1, hr1)
                (rmssd2, sdnn2, pnn502, si2, lfhf2, hf2, hr2) ->
  exists z1 z2,
    compute_stress_score (F := Exact) rmssd1 sdnn1 pnn501 si1 lfhf1 hf1 hr1
    = Ok z1 /\
    compute_stress_score (F := Exact) rmssd2 sdnn2 pnn502 si2 lfhf2 hf2 hr2
    = Ok z2 /\
    (z1 <= z2)%Z.
Proof.
  intros (H1 & H2 & H3 & H4 & H5 & H6 & H7).
  destruct default_bands as (B1 & B2 & B3 & B4 & B5 & B6 & B7).
  destruct (inverted_monotone B1 H1) as (a1 & b1 & Ea1 & Eb1 & L1).
  destruct (inverted_monotone B2 H2) as (a2 & b2 & Ea2 & Eb2 & L2).
  destruct (inverted_monotone B3 H3) as (a3 & b3 & Ea3 & Eb3 & L3).
  destruct (direct_monotone B4 H4) as (b4 & a4 & Eb4 & Ea4 & L4).
  destruct (direct_monotone B5 H5) as (b5 & a5 & Eb5 & Ea5 & L5).
  destruct (inverted_monotone B6 H6) as (a6 & b6 & Ea6 & Eb6 & L6).
  destruct (direct_monotone B7 H7) as (b7 & a7 & Eb7 & Ea7 & L7).
  destruct (composite_value _ _ _ _ _ _ _ Eb1 Eb2 Eb3 Eb4 Eb5 Eb6 Eb7)
    as (c1 & Ec1 & V1).
  destruct (composite_value _ _ _ _ _ _ _ Ea1 Ea2 Ea3 Ea4 Ea5 Ea6 Ea7)
    as (c2 & Ec2 & V2).
  rewrite (exact_score_is_round _ _ _ _ _ _ _ Ec1).
  rewrite (exact_score_is_round _ _ _ _ _ _ _ Ec2).
  do 2 eexists. split; [reflexivity | split; [reflexivity|]].
  apply py_round_monotone, clamp_monotone. lra.
Qed.

Lemma score_monotone_witness :
  more_stressed (70, 90, 30, 80, 4 # 10, 500, 62)
                (48, 60, 15, 170, 12 # 10, 250, 72) /\
  exists z1 z2,
    compute_stress_score (F := Exact) 70 90 30 80 (4 # 10) 500 62 = Ok z1 /\
    compute_stress_score (F := Exact) 48 60 15 170 (12 # 10) 250 72 = Ok z2 /\
    (z1 <= z2)%Z.
Proof.
  assert (H : more_stressed (70, 90, 30, 80, 4 # 10, 500, 62)
                            (48, 60, 15, 170, 12 # 10, 250, 72))
    by (repeat split; unfold Qle; simpl; lia).
  split; [exact H | exact (@score_monotone _ _ _ _ _ _ _ _ _ _ _ _ _ _ H)].
Defined.

(** X9. The weighted composite never exceeds 100, so [min(100, composite)]
    returns the composite unchanged on every input; the lower bound of
    the clamp is needed, since a negative SI, LF/HF or HR can make the
    composite negative. *)
Theorem upper_clamp_never_acts :
  (forall rmssd sdnn pnn50 si lfhf hf hr : Q,
      exists c,
        composite (F := Exact) rmssd sdnn pnn50 si lfhf hf hr = Ok c /\
        (c <= 100)%Q /\
        (py_min (F := Exact) 100 c == c)%Q) /\
  (exists c,
      composite (F := Exact) 120 160 50 (-1000) 0 800 0 = Ok c /\
      (c < 0)%Q /\
      compute_stress_score (F := Exact) 120 160 50 (-1000) 0 800 0 = Ok 0%Z).
Proof.
  split.
  - intros rmssd sdnn pnn50 si lfhf hf hr.
    destruct default_bands as (B1 & B2 & B3 & B4 & B5 & B6 & B7).
    destruct (inverted_profile rmssd B1) as (s1 & E1 & C1).
    destruct (inverted_profile sdnn B2) as (s2 & E2 & C2).
    destruct (inverted_profile pnn50 B3) as (s3 & E3 & C3).
    destruct (direct_profile si B4) as (s4 & E4 & C4).
    destruct (direct_profile lfhf B5) as (s5 & E5 & C5).
    destruct (inverted_profile hf B6) as (s6 & E6 & C6).
    destruct (direct_profile hr B7) as (s7 & E7 & C7).
    destruct (composite_value _ _ _ _ _ _ _ E1 E2 E3 E4 E5 E6 E7)
      as (c & Ec & V).
    assert (s1 <= 100)%Q by (decompose [and or] C1; lra).
    assert (s2 <= 100)%Q by (decompose [and or] C2; lra).
    assert (s3 <= 100)%Q by (decompose [and or] C3; lra).
    assert (s4 <= 100)%Q by (decompose [and or] C4; lra).
    assert (s5 <= 100)%Q by (decompose [and or] C5; lra).
    assert (s6 <= 100)%Q by (decompose [and or] C6; lra).
    assert (s7 <= 100)%Q by (decompose [and or] C7; lra).
    clear C1 C2 C3 C4 C5 C6 C7.
    assert (c <= 100)%Q as Hc by lra.
    exists c. split; [assumption | split; [assumption|]].
    destruct (ExactArith.py_min_spec 100 c) as [[? ->] | [? ->]]; lra.
  - eexists. split; [vm_compute; reflexivity|].
    split; vm_compute; reflexivity.
Qed.

(** X10. When SI, LF/HF and HR are not negative, the weighted composite
    already lies in [0, 100]: the clamp leaves it unchanged and the score
    is the composite rounded, at distance at most 1/2 from it. *)
Theorem score_is_rounded_composite (rmssd sdnn pnn50 si lfhf hf hr : Q) :
  (0 <= si)%Q -> (0 <= lfhf)%Q -> (0 <= hr)%Q ->
  exists c,
    composite (F := Exact) rmssd sdnn pnn50 si lfhf hf hr = Ok c /\
    (0 <= c /\ c <= 100)%Q /\
    (clamp (F := Exact) c == c)%Q /\
    compute_stress_score (F := Exact) rmssd sdnn pnn50 si lfhf hf hr
    = Ok (py_round c) /\
    (c - (1 # 2) <= inject_Z (py_round c) <= c + (1 # 2))%Q.
Proof.
  intros Hsi Hlf Hhr.
  destruct default_bands as (B1 & B2 & B3 & B4 & B5 & B6 & B7).
  destruct (inverted_classify rmssd B1) as (s1 & E1 & C1).
  destruct (inverted_classify sdnn B2) as (s2 & E2 & C2).
  destruct (inverted_classify pnn50 B3) as (s3 & E3 & C3).
  destruct (direct_classify si B4) as (s4 & E4 & C4).
  destruct (direct_classify lfhf B5) as (s5 & E5 & C5).
  destruct (inverted_classify hf B6) as (s6 & E6 & C6).
  destruct (direct_classify hr B7) as (s7 & E7 & C7).
  destruct (composite_value _ _ _ _ _ _ _ E1 E2 E3 E4 E5 E6 E7)
    as (c & Ec & V).
  assert (0 <= s1 <= 100)%Q by (decompose [and or] C1; lra).
  assert (0 <= s2 <= 100)%Q by (decompose [and or] C2; lra).
  assert (0 <= s3 <= 100)%Q by (decompose [and or] C3; lra).
  assert (0 <= s4 <= 100)%Q by (decompose [and or] C4; lra).
  assert (0 <= s5 <= 100)%Q by (decompose [and or] C5; lra).
  assert (0 <= s6 <= 100)%Q by (decompose [and or] C6; lra).
  assert (0 <= s7 <= 100)%Q by (decompose [and or] C7; lra).
  clear C1 C2 C3 C4 C5 C6 C7.
  assert (0 <= c /\ c <= 100)%Q as [Hc0 Hc1] by (split; lra).
  pose proof (clamp_inside Hc0 Hc1) as Hcl.
  exists c. split; [assumption|].
  split; [split; assumption|].
  split; [assumption|].
  split.
  - rewrite (exact_score_is_round _ _ _ _ _ _ _ Ec).
    f_equal. now apply ExactArith.py_round_comp.
  - apply py_round_nearest.
Qed.

Lemma score_is_rounded_composite_witness :
  (0 <= 80)%Q /\ (0 <= 4 # 10)%Q /\ (0 <= 62)%Q /\
  exists c,
    composite (F := Exact) 70 90 30 80 (4 # 10) 500 62 = Ok c /\
    (0 <= c /\ c <= 100)%Q /\
    (clamp (F := Exact) c == c)%Q /\
    compute_stress_score (F := Exact) 70 90 30 80 (4 # 10) 500 62
    = Ok (py_round c) /\
    (c - (1 # 2) <= inject_Z (py_round c) <= c + (1 # 2))%Q.
Proof.
  assert (H1 : (0 <= 80)%Q) by (unfold Qle; simpl; lia).
  assert (H2 : (0 <= 4 # 10)%Q) by (unfold Qle; simpl; lia).
  assert (H3 : (0 <= 62)%Q) by (unfold Qle; simpl; lia).
  repeat (split; [assumption|]).
  exact (score_is_rounded_composite 70 90 30 500 H1 H2 H3).
Defined.

Module Weights.

Import ExactArith Float64 Score.

Section Lookup.

Context {F : PyFloat}.

Lemma getitem_in (d : dict) (k : string) :
  In k (keys d) -> exists v, getitem d k = Ok v.
Proof.
  induction d as [|[k' v] d IH]; simpl; [tauto|].
  intros H. destruct (String.eqb_spec k k') as [-> | Hne]; [eauto|].
  apply IH. destruct H as [H | H]; [congruence | assumption].
Qed.

Lemma getitem_notin (d : dict) (k : string) :
  ~ In k (keys d) -> getitem d k = Raise KeyError.
Proof.
  induction d as [|[k' v] d IH]; simpl; [reflexivity|].
  intros H. destruct (String.eqb_spec k k') as [-> | Hne]; [tauto|].
  apply IH. tauto.
Qed.

(** The seven sub-scores exist and form a dictionary over the feature
    names. *)
Lemma sub_scores_total (rmssd sdnn pnn50 si lfhf hf hr : num) :
  all_nonzero scoring_divisors = true ->
  exists s1 s2 s3 s4 s5 s6 s7,
    sub_scores rmssd sdnn pnn50 si lfhf hf hr
    = Ok (weights_table s1 s2 s3 s4 s5 s6 s7).
Proof.
  unfold scoring_divisors. intros H.
  apply all_nonzero_app in H as [H1 H].
  apply all_nonzero_app in H as [H2 H].
  apply all_nonzero_app in H as [H3 H].
  apply all_nonzero_app in H as [H4 H].
  apply all_nonzero_app in H as [H5 H].
  apply all_nonzero_app in H as [H6 H7].
  destruct (inverted_piecewise_total rmssd _ _ _ H1) as [s1 E1].
  destruct (inverted_piecewise_total sdnn _ _ _ H2) as [s2 E2].
  destruct (inverted_piecewise_total pnn50 _ _ _ H3) as [s3 E3].
  destruct (direct_piecewise_total si _ _ _ H4) as [s4 E4].
  destruct (direct_piecewise_total lfhf _ _ _ H5) as [s5 E5].
  destruct (inverted_piecewise_total hf _ _ _ H6) as [s6 E6].
  destruct (direct_piecewise_total hr _ _ _ H7) as [s7 E7].
  exists s1, s2, s3, s4, s5, s6, s7.
  unfold sub_scores. rewrite E1, E2, E3, E4, E5, E6, E7. reflexivity.
Qed.

(** The sum over the keys of [weights]: it stops with [KeyError] at the
    first key that [scores] lacks, and otherwise keeps any property of
    the running total that each step keeps. *)
Section Sum.

Variable P : num -> Prop.
Hypothesis P_step : forall acc s w, P acc -> P (add acc (mul s w)).

Lemma weighted_sum_outcome (scores weights : dict) (ks : list string)
  (acc : num) :
  incl ks (keys weights) -> P acc ->
  ((exists k, In k ks /\ ~ In k (keys scores)) /\
   weighted_sum scores weights ks acc = Raise KeyError) \/
  (incl ks (keys scores) /\
   exists c, weighted_sum scores weights ks acc = Ok c /\ P c).
Proof.
  revert acc. induction ks as [|k ks IH]; intros acc Hin Hacc.
  - right. split; [intros k []|]. exists acc. split; [reflexivity | assumption].
  - assert (In k (keys weights)) as Hk by (apply Hin; now left).
    assert (incl ks (keys weights)) as Hks
      by (intros x Hx; apply Hin; now right).
    simpl.
    destruct (in_dec string_dec k (keys scores)) as [Hs | Hs].
    + destruct (getitem_in scores k Hs) as [s ->].
      destruct (getitem_in weights k Hk) as [w ->]. simpl.
      destruct (IH (add acc (mul s w)) Hks (P_step s w Hacc))
        as [[(k' & Hk' & Hn) E] | [Hincl (c & E & Hc)]].
      * left. split; [|assumption]. exists k'. split; [now right | assumption].
      * right. split; [|eauto].
        intros x [<- | Hx]; [assumption | now apply Hincl].
    + rewrite (getitem_notin scores k Hs). simpl.
      left. split; [|reflexivity]. exists k. split; [now left | assumption].
Qed.

End Sum.

End Lookup.

Lemma exact_score_any_weights (weights : @dict Exact)
  (rmssd sdnn pnn50 si lfhf hf hr : Q) :
  ((exists k, In k (keys weights) /\ ~ In k feature_names) /\
   compute_stress_score_in (F := Exact) weights
     rmssd sdnn pnn50 si lfhf hf hr = Raise KeyError) \/
  (incl (keys weights) feature_names /\
   exists z,
     compute_stress_score_in (F := Exact) weights
       rmssd sdnn pnn50 si lfhf hf hr = Ok z /\ (0 <= z <= 100)%Z).
Proof.
  destruct (sub_scores_total (F := Exact) rmssd sdnn pnn50 si lfhf hf hr
              exact_divisors_nonzero)
    as (s1 & s2 & s3 & s4 & s5 & s6 & s7 & E).
  unfold compute_stress_score_in, composite_in. rewrite E. cbn [bind].
  destruct (@weighted_sum_outcome Exact (fun _ => True)
              (fun _ _ _ _ => I)
              (weights_table (F := Exact) s1 s2 s3 s4 s5 s6 s7) weights
              (keys weights) (@lit Exact 0) (@incl_refl _ _) I)
    as [[Hk Ew] | [Hincl (c & Ew & _)]].
  - left. split; [exact Hk|]. now rewrite Ew.
  - right. split; [exact Hincl|]. rewrite Ew. cbn [bind].
    eexists. split; [reflexivity|].
    destruct (exact_clamp_range c). now apply py_round_bounds.
Qed.

Lemma binary64_score_any_weights (weights : @dict Binary64)
  (rmssd sdnn pnn50 si lfhf hf hr : spec_float) :
  ((exists k, In k (keys weights) /\ ~ In k feature_names) /\
   compute_stress_score_in (F := Binary64) weights
     rmssd sdnn pnn50 si lfhf hf hr = Raise KeyError) \/
  (incl (keys weights) feature_names /\
   exists z,
     compute_stress_score_in (F := Binary64) weights
       rmssd sdnn pnn50 si lfhf hf hr = Ok z /\ (0 <= z <= 100)%Z).
Proof.
  destruct (sub_scores_total (F := Binary64) rmssd sdnn pnn50 si lfhf hf hr
              scoring_divisors_nonzero)
    as (s1 & s2 & s3 & s4 & s5 & s6 & s7 & E).
  unfold compute_stress_score_in, composite_in. rewrite E.
  cbn [bind].
  assert (P0 : mant_bounded (@lit Binary64 0)) by (rewrite lit_0; exact I).
  destruct (@weighted_sum_outcome Binary64 mant_bounded
              (fun acc s w H => @SFadd_bounded acc _ H (SFmul_bounded s w))
              (weights_table (F := Binary64) s1 s2 s3 s4 s5 s6 s7) weights
              (keys weights) (@lit Binary64 0) (@incl_refl _ _) P0)
    as [[Hk Ew] | [Hincl (c & Ew & Hc)]].
  - left. split; [exact Hk|]. now rewrite Ew.
  - right. split; [exact Hincl|]. rewrite Ew. cbn [bind].
    now apply clamp_score_range.
Qed.

End Weights.

Import Weights.

(** X11. With any dictionary in place of [WEIGHTS], a scoring call
    raises [KeyError] exactly when some key of the dictionary is not one
    of the seven feature names; otherwise it returns an integer in
    [0, 100], whatever the weights (negative, huge, none at all), in
    exact arithmetic and in binary64. *)
Theorem score_with_any_weights
  (weights_q : @dict Exact) (weights_f : @dict Binary64)
  (rmssd sdnn pnn50 si lfhf hf hr : Q)
  (rmssd' sdnn' pnn50' si' lfhf' hf' hr' : spec_float) :
  NoDup (keys weights_q) ->
  NoDup (keys weights_f) ->
  (((exists k, In k (keys weights_q) /\ ~ In k feature_names) /\
    compute_stress_score_in (F := Exact) weights_q
      rmssd sdnn pnn50 si lfhf hf hr = Raise KeyError) \/
   (incl (keys weights_q) feature_names /\
    exists z,
      compute_stress_score_in (F := Exact) weights_q
        rmssd sdnn pnn50 si lfhf hf hr = Ok z /\ (0 <= z <= 100)%Z)) /\
  (((exists k, In k (keys weights_f) /\ ~ In k feature_names) /\
    compute_stress_score_in (F := Binary64) weights_f
      rmssd' sdnn' pnn50' si' lfhf' hf' hr' = Raise KeyError) \/
   (incl (keys weights_f) feature_names /\
    exists z,
      compute_stress_score_in (F := Binary64) weights_f
        rmssd' sdnn' pnn50' si' lfhf' hf' hr' = Ok z /\ (0 <= z <= 100)%Z)).
Proof.
  intros _ _. split.
  - apply exact_score_any_weights.
  - apply binary64_score_any_weights.
Qed.

Lemma score_with_any_weights_witness :
  NoDup (keys (F := Exact) [("rmssd", 2); ("mood", 1)]%string) /\
  NoDup (keys (F := Binary64) [("hr", S754_infinity true)]%string) /\
  (((exists k, In k (keys (F := Exact) [("rmssd", 2); ("mood", 1)]%string)
               /\ ~ In k feature_names) /\
    compute_stress_score_in (F := Exact) [("rmssd", 2); ("mood", 1)]%string
      70 90 30 80 (4 # 10) 500 62 = Raise KeyError) \/
   (incl (keys (F := Exact) [("rmssd", 2); ("mood", 1)]%string)
      feature_names /\
    exists z,
      compute_stress_score_in (F := Exact) [("rmssd", 2); ("mood", 1)]%string
        70 90 30 80 (4 # 10) 500 62 = Ok z /\ (0 <= z <= 100)%Z)) /\
  (((exists k, In k (keys (F := Binary64) [("hr", S754_infinity true)]%string)
               /\ ~ In k feature_names) /\
    compute_stress_score_in (F := Binary64)
      [("hr", S754_infinity true)]%string
      (lit 70) (lit 90) (lit 30) (lit 80) (lit (4 # 10)) (lit 500) (lit 62)
    = Raise KeyError) \/
   (incl (keys (F := Binary64) [("hr", S754_infinity true)]%string)
      feature_names /\
    exists z,
      compute_stress_score_in (F := Binary64)
        [("hr", S754_infinity true)]%string
        (lit 70) (lit 90) (lit 30) (lit 80) (lit (4 # 10)) (lit 500) (lit 62)
      = Ok z /\ (0 <= z <= 100)%Z)).
Proof.
  assert (N1 : NoDup (keys (F := Exact) [("rmssd", 2); ("mood", 1)]%string)).
  { simpl. repeat constructor; simpl; intuition discriminate. }
  assert (N2 : NoDup (keys (F := Binary64)
                        [("hr", S754_infinity true)]%string)).
  { simpl. repeat constructor; simpl; intuition discriminate. }
  split; [exact N1 | split; [exact N2|]].
  exact (@score_with_any_weights _ _ 70 90 30 80 (4 # 10) 500 62
           (lit 70) (lit 90) (lit 30) (lit 80) (lit (4 # 10)) (lit 500)
           (lit 62) N1 N2).
Defined.

(** X12. In binary64 a NaN reading is scored exactly like the most
    stressed value of its feature: NaN in RMSSD, SDNN, pNN50 or HF gives
    the same score as the value 0 there, and NaN in SI, LF/HF or HR the
    same score as twice the elevated cutoff (1000, 8, 190), whatever the
    other six inputs. *)
Theorem nan_scored_as_most_stressed
  (rmssd sdnn pnn50 si lfhf hf hr : spec_float) :
  compute_stress_score (F := Binary64) S754_nan sdnn pnn50 si lfhf hf hr
  = compute_stress_score (F := Binary64) (lit 0) sdnn pnn50 si lfhf hf hr /\
  compute_stress_score (F := Binary64) rmssd S754_nan pnn50 si lfhf hf hr
  = compute_stress_score (F := Binary64) rmssd (lit 0) pnn50 si lfhf hf hr /\
  compute_stress_score (F := Binary64) rmssd sdnn S754_nan si lfhf hf hr
  = compute_stress_score (F := Binary64) rmssd sdnn (lit 0) si lfhf hf hr /\
  compute_stress_score (F := Binary64) rmssd sdnn pnn50 S754_nan lfhf hf hr
  = compute_stress_score (F := Binary64) rmssd sdnn pnn50 (lit 1000) lfhf hf hr
  /\
  compute_stress_score (F := Binary64) rmssd sdnn pnn50 si S754_nan hf hr
  = compute_stress_score (F := Binary64) rmssd sdnn pnn50 si (lit 8) hf hr /\
  compute_stress_score (F := Binary64) rmssd sdnn pnn50 si lfhf S754_nan hr
  = compute_stress_score (F := Binary64) rmssd sdnn pnn50 si lfhf (lit 0) hr /\
  compute_stress_score (F := Binary64) rmssd sdnn pnn50 si lfhf hf S754_nan
  = compute_stress_score (F := Binary64) rmssd sdnn pnn50 si lfhf hf (lit 190).
Proof.
  assert (I1 : inverted_piecewise (F := Binary64) (lit 0)
                 RMSSD_RELAXED RMSSD_NORMAL RMSSD_ELEVATED = Ok f100)
    by (vm_compute; reflexivity).
  assert (I2 : inverted_piecewise (F := Binary64) (lit 0)
                 SDNN_RELAXED SDNN_NORMAL SDNN_ELEVATED = Ok f100)
    by (vm_compute; reflexivity).
  assert (I3 : inverted_piecewise (F := Binary64) (lit 0)
                 PNN50_RELAXED PNN50_NORMAL PNN50_ELEVATED = Ok f100)
    by (vm_compute; reflexivity).
  assert (I4 : direct_piecewise (F := Binary64) (lit 1000)
                 SI_RELAXED SI_NORMAL SI_ELEVATED = Ok f100)
    by (vm_compute; reflexivity).
  assert (I5 : direct_piecewise (F := Binary64) (lit 8)
                 LFHF_RELAXED LFHF_NORMAL LFHF_ELEVATED = Ok f100)
    by (vm_compute; reflexivity).
  assert (I6 : inverted_piecewise (F := Binary64) (lit 0)
                 HF_RELAXED HF_NORMAL HF_ELEVATED = Ok f100)
    by (vm_compute; reflexivity).
  assert (I7 : direct_piecewise (F := Binary64) (lit 190)
                 HR_RELAXED HR_NORMAL HR_ELEVATED = Ok f100)
    by (vm_compute; reflexivity).
  unfold compute_stress_score, compute_stress_score_in, composite_in,
    sub_scores.
  rewrite !Float64.inverted_nan, !Float64.direct_nan.
  rewrite I1, I2, I3, I4, I5, I6, I7.
  repeat split; reflexivity.
Qed.

(** * The benchmark harness *)

Module Bench.

Import ExactArith Float64 Score.

Section Loops.

Context {F : PyFloat}.

Hypothesis scores_ok :
  forall s, In s test_samples -> exists z, score_sample s = Ok z.
Hypothesis thousand : is_zero (lit 1000) = false.

(** [test_samples[i % 4]] is always in range. *)
Lemma sample_in_range (i : Z) :
  exists s, list_getitem test_samples (i mod 4) = Completed s
            /\ nth_error test_samples (Z.to_nat (i mod 4)) = Some s
            /\ In s test_samples.
Proof.
  pose proof (Z.mod_pos_bound i 4 ltac:(lia)) as Hb.
  assert (i mod 4 = 0 \/ i mod 4 = 1 \/ i mod 4 = 2 \/ i mod 4 = 3)%Z
    as [-> | [-> | [-> | ->]]] by lia;
    eexists; (split; [reflexivity | split; [reflexivity|]]); simpl; auto.
Qed.

Lemma score_each_ok (l : list sample) :
  incl l test_samples -> score_each l = Completed tt.
Proof.
  induction l as [|s l IH]; intros H; simpl; [reflexivity|].
  destruct (@scores_ok s (H s (or_introl eq_refl))) as [z ->].
  apply IH. intros x Hx. apply H. now right.
Qed.

Lemma repeat_run_ok (n : nat) : repeat_run n (Completed tt) = Completed tt.
Proof. induction n; simpl; auto. Qed.

Lemma warm_up_ok : warm_up = Completed tt.
Proof.
  unfold warm_up. rewrite score_each_ok by apply incl_refl.
  apply repeat_run_ok.
Qed.

Lemma timed_loop_closed (clock : nat -> Z) (n : nat) :
  forall (i : Z) (tick : nat) (acc : list num),
    timed_loop clock n i tick acc
    = Completed (acc ++ map (recorded clock tick) (seq 0 n)).
Proof.
  induction n as [|n IH]; intros i tick acc.
  - simpl. now rewrite app_nil_r.
  - cbn [timed_loop].
    destruct (sample_in_range i) as (s & -> & _ & Hs).
    destruct (@scores_ok s Hs) as [z ->].
    rewrite (@div_nonzero _ _ _ thousand).
    rewrite IH, <- app_assoc. do 2 f_equal.
    cbn [seq map app]. f_equal.
    + unfold recorded. now rewrite Nat.mul_0_r, Nat.add_0_r.
    + rewrite <- seq_shift, map_map. apply map_ext. intros j.
      unfold recorded.
      replace (S (S tick) + 2 * j)%nat with (tick + 2 * S j)%nat by lia.
      reflexivity.
Qed.

End Loops.

Lemma exact_scores_ok (s : @sample Exact) :
  In s test_samples -> exists z, score_sample s = Ok z.
Proof.
  intros _. destruct s as [[[[[[a b] c] d] e] f] g]. simpl.
  destruct (exact_score_range a b c d e f g) as (z & E & _). eauto.
Qed.

Lemma binary64_scores_ok (s : @sample Binary64) :
  In s test_samples -> exists z, score_sample s = Ok z.
Proof.
  intros _. destruct s as [[[[[[a b] c] d] e] f] g]. simpl.
  destruct (binary64_score_range a b c d e f g) as (z & E & _). eauto.
Qed.

Lemma exact_thousand : @is_zero Exact (@lit Exact 1000) = false.
Proof. reflexivity. Qed.

Lemma binary64_thousand : @is_zero Binary64 (@lit Binary64 1000) = false.
Proof. vm_compute. reflexivity. Qed.

(** The score of the sample picked by iteration [i]. *)
Lemma rotation (i : Z) :
  (exists s,
      list_getitem (@test_samples Exact) (i mod 4) = Completed s /\
      score_sample s
      = Ok (nth (Z.to_nat (i mod 4)) [10; 27; 51; 74]%Z 0%Z)) /\
  (exists s,
      list_getitem (@test_samples Binary64) (i mod 4) = Completed s /\
      score_sample s
      = Ok (nth (Z.to_nat (i mod 4)) [10; 27; 51; 74]%Z 0%Z)).
Proof.
  pose proof (Z.mod_pos_bound i 4 ltac:(lia)) as Hb.
  assert (i mod 4 = 0 \/ i mod 4 = 1 \/ i mod 4 = 2 \/ i mod 4 = 3)%Z
    as [-> | [-> | [-> | ->]]] by lia;
    split; eexists; (split; [reflexivity | vm_compute; reflexivity]).
Qed.

End Bench.

Import Bench.

(** X13. No scoring call of the harness fails: [test_samples[i % 4]] is
    in range for every integer [i], the sample it picks scores 10, 27,
    51 or 74 in rotation, the warm-up completes, and the timed loop
    completes for every clock and every number of iterations with one
    latency per iteration; in exact arithmetic and in binary64. *)
Theorem benchmark_calls_never_fail :
  (forall i : Z,
      (exists s,
          list_getitem (@test_samples Exact) (i mod 4) = Completed s /\
          score_sample s
          = Ok (nth (Z.to_nat (i mod 4)) [10; 27; 51; 74]%Z 0%Z)) /\
      (exists s,
          list_getitem (@test_samples Binary64) (i mod 4) = Completed s /\
          score_sample s
          = Ok (nth (Z.to_nat (i mod 4)) [10; 27; 51; 74]%Z 0%Z))) /\
  @warm_up Exact = Completed tt /\
  @warm_up Binary64 = Completed tt /\
  (forall (clock : nat -> Z) (n : nat),
      exists latencies,
        timed_loop (F := Exact) clock n 0 0 [] = Completed latencies /\
        List.length latencies = n) /\
  (forall (clock : nat -> Z) (n : nat),
      exists latencies,
        timed_loop (F := Binary64) clock n 0 0 [] = Completed latencies /\
        List.length latencies = n).
Proof.
  split; [exact rotation|].
  split; [exact (warm_up_ok exact_scores_ok)|].
  split; [exact (warm_up_ok binary64_scores_ok)|].
  split; intros clock n.
  - rewrite (timed_loop_closed exact_scores_ok exact_thousand).
    eexists. split; [reflexivity|].
    now rewrite length_app, length_map, length_seq.
  - rewrite (timed_loop_closed binary64_scores_ok binary64_thousand).
    eexists. split; [reflexivity|].
    now rewrite length_app, length_map, length_seq.
Qed.

(** X14. The timed loop reads the clock twice per iteration and nowhere
    else: the latency of iteration [j] is reading [2j + 1] minus reading
    [2j], divided by 1000; with a clock that never goes back no recorded
    latency is negative. *)
Theorem latencies_recorded (clock : nat -> Z) (n : nat) :
  (forall k, (clock k <= clock (S k))%Z) ->
  timed_loop (F := Exact) clock n 0 0 []
  = Completed (map (latency_of clock) (seq 0 n)) /\
  Forall (fun latency => (0 <= latency)%Q) (map (latency_of clock) (seq 0 n)).
Proof.
  intros Hmono. split.
  - rewrite (timed_loop_closed exact_scores_ok exact_thousand).
    reflexivity.
  - apply Forall_map, Forall_forall. intros j _.
    unfold latency_of.
    pose proof (Hmono (2 * j)%nat) as H.
    assert (0 <= inject_Z (clock (S (2 * j)) - clock (2 * j)%nat))%Q as H0.
    { change 0%Q with (inject_Z 0). rewrite <- Zle_Qle. lia. }
    unfold Qdiv. change (/ 1000)%Q with (1 # 1000)%Q.
    set (d := inject_Z _) in *. clearbody d. lra.
Qed.

Lemma latencies_recorded_witness :
  (forall k, (1000 * Z.of_nat k <= 1000 * Z.of_nat (S k))%Z) /\
  (timed_loop (F := Exact) (fun k => (1000 * Z.of_nat k)%Z) 3 0 0 []
   = Completed (map (latency_of (fun k => (1000 * Z.of_nat k)%Z)) (seq 0 3)) /\
   Forall (fun latency => (0 <= latency)%Q)
     (map (latency_of (fun k => (1000 * Z.of_nat k)%Z)) (seq 0 3))).
Proof.
  assert (H : forall k, (1000 * Z.of_nat k <= 1000 * Z.of_nat (S k))%Z)
    by (intros k; lia).
  split; [exact H|].
  exact (latencies_recorded (fun k => (1000 * Z.of_nat k)%Z) 3 H).
Defined.

Module Stats.

Import ExactArith.

Open Scope Q_scope.

(** [sorted]: the same items, in ascending order. *)
Lemma insert_In (z x : Q) (l : list Q) :
  In z (insert (F := Exact) x l) <-> z = x \/ In z l.
Proof.
  induction l as [|y l IH]; simpl; [intuition congruence|].
  destruct (negb (Qle_bool y x)); simpl; [intuition congruence|].
  rewrite IH. intuition congruence.
Qed.

Lemma insert_length (x : Q) (l : list Q) :
  List.length (insert (F := Exact) x l) = S (List.length l).
Proof.
  induction l as [|y l IH]; simpl; [reflexivity|].
  destruct (negb (Qle_bool y x)); simpl; [reflexivity | f_equal; exact IH].
Qed.

Lemma ascending_cons (y : Q) (l : list Q) :
  ascending l -> (forall z, In z l -> y <= z) -> ascending (y :: l).
Proof.
  intros Hl Hy i j Hij. destruct i as [|i], j as [|j]; simpl in *.
  - lra.
  - apply Hy, nth_In. lia.
  - lia.
  - apply Hl. lia.
Qed.

Lemma ascending_tail (y : Q) (l : list Q) :
  ascending (y :: l) -> ascending l /\ (forall z, In z l -> y <= z).
Proof.
  intros H. split.
  - intros i j Hij. apply (H (S i) (S j)). simpl. lia.
  - intros z Hz. destruct (In_nth l z 0 Hz) as (k & Hk & <-).
    apply (H 0%nat (S k)). simpl. lia.
Qed.

Lemma insert_ascending (x : Q) (l : list Q) :
  ascending l -> ascending (insert (F := Exact) x l).
Proof.
  induction l as [|y l IH]; intros H.
  - intros i j Hij. simpl in Hij.
    assert (i = 0 /\ j = 0)%nat as [-> ->] by lia. simpl. lra.
  - destruct (ascending_tail H) as [Hl Hy].
    cbn [insert]. change (@ltb Exact x y) with (negb (Qle_bool y x)).
    destruct (Qle_bool y x) eqn:E; cbn [negb].
    + apply Qle_bool_true in E. apply ascending_cons; [now apply IH|].
      intros z Hz. apply insert_In in Hz as [-> | Hz]; [assumption | auto].
    + apply Qle_bool_false in E. apply ascending_cons; [assumption|].
      intros z [<- | Hz]; [lra|]. specialize (Hy z Hz). lra.
Qed.

Lemma sorted_acc (l acc : list Q) :
  ascending acc ->
  let r := fold_left (fun a x => insert (F := Exact) x a) l acc in
  ascending r /\
  List.length r = (List.length l + List.length acc)%nat /\
  (forall z, In z r <-> In z l \/ In z acc).
Proof.
  revert acc. induction l as [|x l IH]; intros acc Hacc; cbn [fold_left].
  - simpl. repeat split; auto; tauto.
  - destruct (IH (insert (F := Exact) x acc) (insert_ascending x Hacc))
      as (H1 & H2 & H3).
    split; [exact H1|]. split.
    + rewrite H2, insert_length. simpl. lia.
    + intros z. rewrite H3, insert_In. simpl. intuition.
Qed.

Lemma sorted_spec (l : list Q) :
  ascending (sorted (F := Exact) l) /\
  List.length (sorted (F := Exact) l) = List.length l /\
  (forall z, In z (sorted (F := Exact) l) <-> In z l).
Proof.
  assert (ascending []) as H0 by (intros i j Hij; simpl in Hij; lia).
  destruct (sorted_acc l H0) as (H1 & H2 & H3).
  unfold sorted. split; [exact H1|]. split.
  - etransitivity; [exact H2 | simpl; lia].
  - intros z. split; intros Hz.
    + apply H3 in Hz. simpl in Hz. tauto.
    + apply H3. now left.
Qed.

(** [min] and [max] bound every item, and are items. *)
Lemma fold_min_spec (l : list Q) (a : Q) :
  let m := fold_left (py_min (F := Exact)) l a in
  m <= a /\ (forall z, In z l -> m <= z) /\ In m (a :: l).
Proof.
  revert a. induction l as [|x l IH]; intros a; cbn [fold_left].
  - simpl. split; [lra | split; [tauto | auto]].
  - destruct (IH (py_min (F := Exact) a x)) as (H1 & H2 & H3).
    destruct (py_min_spec a x) as [[Hle E] | [Hlt E]]; rewrite E in *.
    + split; [assumption|]. split.
      * intros z [<- | Hz]; [lra | auto].
      * destruct H3 as [H3 | H3]; [now left | right; now right].
    + split; [lra|]. split.
      * intros z [<- | Hz]; [lra | auto].
      * destruct H3 as [H3 | H3]; [right; now left | right; now right].
Qed.

Lemma fold_max_spec (l : list Q) (a : Q) :
  let m := fold_left (py_max (F := Exact)) l a in
  a <= m /\ (forall z, In z l -> z <= m) /\ In m (a :: l).
Proof.
  revert a. induction l as [|x l IH]; intros a; cbn [fold_left].
  - simpl. split; [lra | split; [tauto | auto]].
  - destruct (IH (py_max (F := Exact) a x)) as (H1 & H2 & H3).
    destruct (py_max_spec a x) as [[Hle E] | [Hlt E]]; rewrite E in *.
    + split; [assumption|]. split.
      * intros z [<- | Hz]; [lra | auto].
      * destruct H3 as [H3 | H3]; [now left | right; now right].
    + split; [lra|]. split.
      * intros z [<- | Hz]; [lra | auto].
      * destruct H3 as [H3 | H3]; [right; now left | right; now right].
Qed.

(** [int(q * n)] for a fraction [q] of [0, 1) and a length [n >= 1]. *)
Lemma fraction_index (q : Q) (n : nat) :
  0 <= q -> q < 1 -> (1 <= n)%nat ->
  (0 <= py_int (q * inject_Z (Z.of_nat n)) < Z.of_nat n)%Z.
Proof.
  intros H0 H1 Hn.
  assert (1 <= inject_Z (Z.of_nat n)) as Hn'.
  { change 1 with (inject_Z 1). rewrite <- Zle_Qle. lia. }
  set (m := inject_Z (Z.of_nat n)) in *.
  assert (0 <= q * m) as Hx by nra.
  assert (q * m < m) as Hlt by nra.
  unfold py_int. rewrite (Qle_bool_of_le Hx).
  pose proof (Qfloor_le (q * m)) as Hf.
  split.
  - change 0%Z with (Qfloor 0). now apply Qfloor_resp_le.
  - rewrite Zlt_Qlt. fold m. lra.
Qed.

Lemma fraction_index_le (q q' : Q) (n : nat) :
  0 <= q -> q <= q' ->
  (py_int (q * inject_Z (Z.of_nat n)) <= py_int (q' * inject_Z (Z.of_nat n)))%Z.
Proof.
  intros H0 H1.
  assert (0 <= inject_Z (Z.of_nat n)) as Hn.
  { change 0 with (inject_Z 0). rewrite <- Zle_Qle. lia. }
  set (m := inject_Z (Z.of_nat n)) in *.
  assert (0 <= q * m) as Hx by nra.
  assert (q * m <= q' * m) as Hle by nra.
  assert (0 <= q' * m) as Hx' by lra.
  unfold py_int. rewrite (Qle_bool_of_le Hx), (Qle_bool_of_le Hx').
  now apply Qfloor_resp_le.
Qed.

Lemma list_getitem_nth (A : Type) (l : list A) (i : Z) (d : A) :
  (0 <= i < Z.of_nat (List.length l))%Z ->
  list_getitem l i = Completed (nth (Z.to_nat i) l d).
Proof.
  intros H. unfold list_getitem.
  assert ((i <? 0)%Z = false) as -> by (apply Z.ltb_ge; lia).
  assert ((i <? 0)%Z = false) as -> by (apply Z.ltb_ge; lia).
  rewrite (nth_error_nth' l d) by lia. reflexivity.
Qed.

(** The percentile of a non-empty list is the item of the sorted list
    at an index inside the list. *)
Lemma percentile_value (q : Q) (l : list Q) :
  0 <= q -> q < 1 -> l <> [] ->
  let i := py_int (q * inject_Z (Z.of_nat (List.length l))) in
  (0 <= i < Z.of_nat (List.length l))%Z /\
  percentile (F := Exact) exact_int q l
  = Completed (nth (Z.to_nat i) (sorted (F := Exact) l) 0).
Proof.
  intros H0 H1 Hl i.
  assert (1 <= List.length l)%nat as Hn by (destruct l; simpl; [congruence | lia]).
  pose proof (fraction_index H0 H1 Hn) as Hi. fold i in Hi.
  split; [exact Hi|].
  unfold percentile, exact_int.
  change (@mul Exact (@lit Exact q)
            (@lit Exact (inject_Z (Z.of_nat (List.length l)))))
    with (q * inject_Z (Z.of_nat (List.length l))).
  fold i. apply list_getitem_nth.
  destruct (sorted_spec l) as (_ & -> & _). exact Hi.
Qed.

End Stats.

Import Stats.

(** X15. The summary taken from the latencies. On an empty list [min]
    and [max] raise [ValueError] and a percentile raises [IndexError].
    On a non-empty list the minimum, the maximum and the 95th and 99th
    percentiles exist, each is one of the latencies, and
    min <= p95 <= p99 <= max. For the 10000 latencies of the benchmark
    binary64 computes the indices 9500 and 9900, as exact arithmetic
    does. *)
Theorem latency_summary_ordered (latencies : list Q) :
  ((latencies = [] /\
    list_min (F := Exact) latencies = Raise ValueError /\
    list_max (F := Exact) latencies = Raise ValueError /\
    percentile (F := Exact) exact_int (95 # 100) latencies
    = Aborted IndexError /\
    percentile (F := Exact) exact_int (99 # 100) latencies
    = Aborted IndexError) \/
   (latencies <> [] /\
    exists mn mx p95 p99,
      list_min (F := Exact) latencies = Ok mn /\
      list_max (F := Exact) latencies = Ok mx /\
      percentile (F := Exact) exact_int (95 # 100) latencies = Completed p95 /\
      percentile (F := Exact) exact_int (99 # 100) latencies = Completed p99 /\
      In mn latencies /\ In mx latencies /\
      In p95 latencies /\ In p99 latencies /\
      (mn <= p95 /\ p95 <= p99 /\ p99 <= mx)%Q)) /\
  (SF_int (@mul Binary64 (lit (95 # 100)) (lit (inject_Z 10000))) = Ok 9500%Z /\
   SF_int (@mul Binary64 (lit (99 # 100)) (lit (inject_Z 10000))) = Ok 9900%Z /\
   exact_int (@mul Exact (lit (95 # 100)) (lit (inject_Z 10000))) = Ok 9500%Z /\
   exact_int (@mul Exact (lit (99 # 100)) (lit (inject_Z 10000))) = Ok 9900%Z).
Proof.
  split; [|repeat split; vm_compute; reflexivity].
  destruct latencies as [|a l]; [left; repeat split; reflexivity | right].
  split; [discriminate|].
  set (L := a :: l).
  assert (HL : L <> []) by discriminate.
  destruct (@percentile_value (95 # 100) L ltac:(lra) ltac:(lra) HL)
    as (Hi95 & E95).
  destruct (@percentile_value (99 # 100) L ltac:(lra) ltac:(lra) HL)
    as (Hi99 & E99).
  pose proof (@fraction_index_le (95 # 100) (99 # 100) (List.length L)
                ltac:(lra) ltac:(lra)) as Hle.
  destruct (sorted_spec L) as (Hasc & Hlen & Hin).
  destruct (fold_min_spec l a) as (M1 & M2 & M3).
  destruct (fold_max_spec l a) as (X1 & X2 & X3).
  set (i95 := py_int ((95 # 100) * inject_Z (Z.of_nat (List.length L)))) in *.
  set (i99 := py_int ((99 # 100) * inject_Z (Z.of_nat (List.length L)))) in *.
  set (p95 := nth (Z.to_nat i95) (sorted (F := Exact) L) 0%Q) in *.
  set (p99 := nth (Z.to_nat i99) (sorted (F := Exact) L) 0%Q) in *.
  assert (In p95 L) as I95 by (apply Hin, nth_In; lia).
  assert (In p99 L) as I99 by (apply Hin, nth_In; lia).
  assert (p95 <= p99)%Q as Hp.
  { apply Hasc. split; [lia|].
    eapply Nat.lt_le_trans;
      [|apply Nat.eq_le_incl; symmetry; exact Hlen].
    lia. }
  exists (fold_left (py_min (F := Exact)) l a),
         (fold_left (py_max (F := Exact)) l a), p95, p99.
  split; [reflexivity|]. split; [reflexivity|].
  split; [exact E95|]. split; [exact E99|].
  split; [exact M3|]. split; [exact X3|].
  split; [exact I95|]. split; [exact I99|].
  split; [|split; [exact Hp|]].
  - destruct I95 as [<- | H]; [exact M1 | now apply M2].
  - destruct I99 as [<- | H]; [exact X1 | now apply X2].
Qed.
